(** * Threshold / hysteresis monitors of the environment module

    A shallow embedding of [environment.h] and [environment.cpp]: the
    configuration record, the sixteen file-scope variables of the four
    channel monitors, the four event accessors and
    [evaluate_user_environment].

    - [double] is IEEE-754 binary64, modelled by Rocq's primitive floats;
      the comparison operators of C++ are the ones of [PrimFloat] (all of
      them false on NaN).
    - [size_t] is an unsigned integer modelled in [Z] with its wrap-around
      written out; its largest value [SIZE_MAX] depends on the target and
      is a parameter of the development.
    - The file-scope variables are threaded explicitly: every operation
      takes the current [Globals] and returns the next ones.  The
      configuration is written by the configuration service between
      calls, so each operation receives the [ConfigData] current at the
      time of the call. *)

From Stdlib Require Import ZArith Bool List Lia Floats Permutation.
From Stdlib Require String.
Import ListNotations.
Import String.StringSyntax.
Delimit Scope string_scope with string.

Local Open Scope Z_scope.

(** ** Numbers *)

Definition double := float.
Bind Scope float_scope with double.

(** The relational and additive operators of C++ on [double]. *)
Definition dge (x y : double) : bool := PrimFloat.leb y x.   (* x >= y *)
Definition dgt (x y : double) : bool := PrimFloat.ltb y x.   (* x >  y *)
Definition dle (x y : double) : bool := PrimFloat.leb x y.   (* x <= y *)
Definition dlt (x y : double) : bool := PrimFloat.ltb x y.   (* x <  y *)
Definition dadd (x y : double) : double := PrimFloat.add x y.
Definition dsub (x y : double) : double := PrimFloat.sub x y.

(** ** environment.h *)

Record Environment := mkEnvironment {
  Temperature : double;
  Humidity : double
}.

Definition ExternalTemperatureHighDefault : double := 45%float.
Definition ExternalTemperatureLowDefault : double := 25%float.
Definition ExternalTemperatureHysteresisDefault : double := 5%float.
Definition ExternalHumidityHighDefault : double := 95%float.
Definition ExternalHumidityLowDefault : double := 25%float.
Definition ExternalHumidityHysteresisDefault : double := 5%float.

(** ** environment.cpp: configuration *)

(** The members [highLatch], [lowLatch], [humhighLatch] and [humlowLatch] of
    the structure share their names with four file-scope variables; the
    members carry the suffix [_cfg] here. *)
Record ConfigData := mkConfigData {
  highThreshold : double;
  highEnable : bool;
  highLatch_cfg : bool;
  lowThreshold : double;
  lowEnable : bool;
  lowLatch_cfg : bool;
  hysteresis : double;
  humhighThreshold : double;
  humhighEnable : bool;
  humhighLatch_cfg : bool;
  humlowThreshold : double;
  humlowEnable : bool;
  humlowLatch_cfg : bool;
  humhysteresis : double
}.

(** The initial value of the file-scope [_environmentConfig]. *)
Definition _environmentConfig : ConfigData := {|
  highThreshold := ExternalTemperatureHighDefault;
  highEnable := false;
  highLatch_cfg := true;
  lowThreshold := ExternalTemperatureLowDefault;
  lowEnable := false;
  lowLatch_cfg := true;
  hysteresis := ExternalTemperatureHysteresisDefault;
  humhighThreshold := ExternalHumidityHighDefault;
  humhighEnable := false;
  humhighLatch_cfg := true;
  humlowThreshold := ExternalHumidityLowDefault;
  humlowEnable := false;
  humlowLatch_cfg := true;
  humhysteresis := ExternalHumidityHysteresisDefault
|}.

Inductive EnvState :=
| UNKNOWN
| NORMAL
| OUTSIDE_LIMIT
| INSIDE_LIMIT.

(** ** environment.cpp: the file-scope variables *)

Record Globals := mkGlobals {
  highState : EnvState;
  highEvents : Z;
  highEventsLast : Z;
  highLatch : bool;
  humhighState : EnvState;
  humhighEvents : Z;
  humhighEventsLast : Z;
  humhighLatch : bool;
  lowState : EnvState;
  lowEvents : Z;
  lowEventsLast : Z;
  lowLatch : bool;
  humlowState : EnvState;
  humlowEvents : Z;
  humlowEventsLast : Z;
  humlowLatch : bool
}.

(** The static initialisers. *)
Definition initial_globals : Globals := {|
  highState := NORMAL;
  highEvents := 0;
  highEventsLast := 0;
  highLatch := false;
  humhighState := NORMAL;
  humhighEvents := 0;
  humhighEventsLast := 0;
  humhighLatch := false;
  lowState := NORMAL;
  lowEvents := 0;
  lowEventsLast := 0;
  lowLatch := false;
  humlowState := NORMAL;
  humlowEvents := 0;
  humlowEventsLast := 0;
  humlowLatch := false
|}.

(** Assignments to one variable. *)
Definition set_highState (x : EnvState) (g : Globals) : Globals :=
  mkGlobals x (highEvents g) (highEventsLast g) (highLatch g)
    (humhighState g) (humhighEvents g) (humhighEventsLast g) (humhighLatch g)
    (lowState g) (lowEvents g) (lowEventsLast g) (lowLatch g)
    (humlowState g) (humlowEvents g) (humlowEventsLast g) (humlowLatch g).
Definition set_highEvents (x : Z) (g : Globals) : Globals :=
  mkGlobals (highState g) x (highEventsLast g) (highLatch g)
    (humhighState g) (humhighEvents g) (humhighEventsLast g) (humhighLatch g)
    (lowState g) (lowEvents g) (lowEventsLast g) (lowLatch g)
    (humlowState g) (humlowEvents g) (humlowEventsLast g) (humlowLatch g).
Definition set_highEventsLast (x : Z) (g : Globals) : Globals :=
  mkGlobals (highState g) (highEvents g) x (highLatch g)
    (humhighState g) (humhighEvents g) (humhighEventsLast g) (humhighLatch g)
    (lowState g) (lowEvents g) (lowEventsLast g) (lowLatch g)
    (humlowState g) (humlowEvents g) (humlowEventsLast g) (humlowLatch g).
Definition set_highLatch (x : bool) (g : Globals) : Globals :=
  mkGlobals (highState g) (highEvents g) (highEventsLast g) x
    (humhighState g) (humhighEvents g) (humhighEventsLast g) (humhighLatch g)
    (lowState g) (lowEvents g) (lowEventsLast g) (lowLatch g)
    (humlowState g) (humlowEvents g) (humlowEventsLast g) (humlowLatch g).
Definition set_humhighState (x : EnvState) (g : Globals) : Globals :=
  mkGlobals (highState g) (highEvents g) (highEventsLast g) (highLatch g)
    x (humhighEvents g) (humhighEventsLast g) (humhighLatch g)
    (lowState g) (lowEvents g) (lowEventsLast g) (lowLatch g)
    (humlowState g) (humlowEvents g) (humlowEventsLast g) (humlowLatch g).
Definition set_humhighEvents (x : Z) (g : Globals) : Globals :=
  mkGlobals (highState g) (highEvents g) (highEventsLast g) (highLatch g)
    (humhighState g) x (humhighEventsLast g) (humhighLatch g)
    (lowState g) (lowEvents g) (lowEventsLast g) (lowLatch g)
    (humlowState g) (humlowEvents g) (humlowEventsLast g) (humlowLatch g).
Definition set_humhighEventsLast (x : Z) (g : Globals) : Globals :=
  mkGlobals (highState g) (highEvents g) (highEventsLast g) (highLatch g)
    (humhighState g) (humhighEvents g) x (humhighLatch g)
    (lowState g) (lowEvents g) (lowEventsLast g) (lowLatch g)
    (humlowState g) (humlowEvents g) (humlowEventsLast g) (humlowLatch g).
Definition set_humhighLatch (x : bool) (g : Globals) : Globals :=
  mkGlobals (highState g) (highEvents g) (highEventsLast g) (highLatch g)
    (humhighState g) (humhighEvents g) (humhighEventsLast g) x
    (lowState g) (lowEvents g) (lowEventsLast g) (lowLatch g)
    (humlowState g) (humlowEvents g) (humlowEventsLast g) (humlowLatch g).
Definition set_lowState (x : EnvState) (g : Globals) : Globals :=
  mkGlobals (highState g) (highEvents g) (highEventsLast g) (highLatch g)
    (humhighState g) (humhighEvents g) (humhighEventsLast g) (humhighLatch g)
    x (lowEvents g) (lowEventsLast g) (lowLatch g)
    (humlowState g) (humlowEvents g) (humlowEventsLast g) (humlowLatch g).
Definition set_lowEvents (x : Z) (g : Globals) : Globals :=
  mkGlobals (highState g) (highEvents g) (highEventsLast g) (highLatch g)
    (humhighState g) (humhighEvents g) (humhighEventsLast g) (humhighLatch g)
    (lowState g) x (lowEventsLast g) (lowLatch g)
    (humlowState g) (humlowEvents g) (humlowEventsLast g) (humlowLatch g).
Definition set_lowEventsLast (x : Z) (g : Globals) : Globals :=
  mkGlobals (highState g) (highEvents g) (highEventsLast g) (highLatch g)
    (humhighState g) (humhighEvents g) (humhighEventsLast g) (humhighLatch g)
    (lowState g) (lowEvents g) x (lowLatch g)
    (humlowState g) (humlowEvents g) (humlowEventsLast g) (humlowLatch g).
Definition set_lowLatch (x : bool) (g : Globals) : Globals :=
  mkGlobals (highState g) (highEvents g) (highEventsLast g) (highLatch g)
    (humhighState g) (humhighEvents g) (humhighEventsLast g) (humhighLatch g)
    (lowState g) (lowEvents g) (lowEventsLast g) x
    (humlowState g) (humlowEvents g) (humlowEventsLast g) (humlowLatch g).
Definition set_humlowState (x : EnvState) (g : Globals) : Globals :=
  mkGlobals (highState g) (highEvents g) (highEventsLast g) (highLatch g)
    (humhighState g) (humhighEvents g) (humhighEventsLast g) (humhighLatch g)
    (lowState g) (lowEvents g) (lowEventsLast g) (lowLatch g)
    x (humlowEvents g) (humlowEventsLast g) (humlowLatch g).
Definition set_humlowEvents (x : Z) (g : Globals) : Globals :=
  mkGlobals (highState g) (highEvents g) (highEventsLast g) (highLatch g)
    (humhighState g) (humhighEvents g) (humhighEventsLast g) (humhighLatch g)
    (lowState g) (lowEvents g) (lowEventsLast g) (lowLatch g)
    (humlowState g) x (humlowEventsLast g) (humlowLatch g).
Definition set_humlowEventsLast (x : Z) (g : Globals) : Globals :=
  mkGlobals (highState g) (highEvents g) (highEventsLast g) (highLatch g)
    (humhighState g) (humhighEvents g) (humhighEventsLast g) (humhighLatch g)
    (lowState g) (lowEvents g) (lowEventsLast g) (lowLatch g)
    (humlowState g) (humlowEvents g) x (humlowLatch g).
Definition set_humlowLatch (x : bool) (g : Globals) : Globals :=
  mkGlobals (highState g) (highEvents g) (highEventsLast g) (highLatch g)
    (humhighState g) (humhighEvents g) (humhighEventsLast g) (humhighLatch g)
    (lowState g) (lowEvents g) (lowEventsLast g) (lowLatch g)
    (humlowState g) (humlowEvents g) (humlowEventsLast g) x.

(** ** environment.cpp: the operations *)

Section Operations.

(** The largest value of [size_t] on the target. *)
Variable SIZE_MAX : Z.

(** Reduction of an arithmetic result to [size_t]. *)
Definition to_size_t (x : Z) : Z := x mod (SIZE_MAX + 1).

(** Conversion of a [bool] to [size_t]. *)
Definition size_t_of_bool (b : bool) : Z := if b then 1 else 0.

(** *** The event accessors

    Each returns its result together with the variables after the call. *)

Definition environment_high_temperature_events
    (cfg : ConfigData) (g : Globals) : Z * Globals :=
  let eventsCapture := highEvents g in
  let eventsCount := to_size_t (eventsCapture - highEventsLast g) in
  let g := set_highEventsLast eventsCapture g in
  (if highLatch_cfg cfg then size_t_of_bool (highLatch g) else eventsCount, g).

Definition environment_high_humidity_events
    (cfg : ConfigData) (g : Globals) : Z * Globals :=
  let eventsCapture := humhighEvents g in
  let eventsCount := to_size_t (eventsCapture - humhighEventsLast g) in
  let g := set_humhighEventsLast eventsCapture g in
  (if humhighLatch_cfg cfg then size_t_of_bool (humhighLatch g) else eventsCount, g).

Definition environment_low_temperature_events
    (cfg : ConfigData) (g : Globals) : Z * Globals :=
  let eventsCapture := lowEvents g in
  let eventsCount := to_size_t (eventsCapture - lowEventsLast g) in
  let g := set_lowEventsLast eventsCapture g in
  (if lowLatch_cfg cfg then size_t_of_bool (lowLatch g) else eventsCount, g).

Definition environment_low_humidity_events
    (cfg : ConfigData) (g : Globals) : Z * Globals :=
  let eventsCapture := humlowEvents g in
  let eventsCount := to_size_t (eventsCapture - humlowEventsLast g) in
  let g := set_humlowEventsLast eventsCapture g in
  (if humlowLatch_cfg cfg then size_t_of_bool (humlowLatch g) else eventsCount, g).

(** *** [evaluate_user_environment]

    The function is a sequence of four [if] statements, one per monitor;
    each is a definition of its own here.  In every [switch] the case
    [UNKNOWN] assigns [NORMAL] and falls through into the case [NORMAL]. *)

Definition evaluate_high_temperature
    (cfg : ConfigData) (environment : Environment) (g : Globals) : Globals :=
  let case_NORMAL (g : Globals) :=
    if dge (Temperature environment) (highThreshold cfg) then
      let g := set_highEvents (to_size_t (highEvents g + 1)) g in
      let g := set_highLatch true g in
      set_highState OUTSIDE_LIMIT g
    else g in
  if highEnable cfg then
    match highState g with
    | UNKNOWN => case_NORMAL (set_highState NORMAL g)
    | NORMAL => case_NORMAL g
    | OUTSIDE_LIMIT =>
        if dlt (Temperature environment) (highThreshold cfg) then
          set_highState INSIDE_LIMIT g
        else g
    | INSIDE_LIMIT =>
        if dle (Temperature environment)
               (dsub (highThreshold cfg) (hysteresis cfg)) then
          let g := set_highLatch false g in
          set_highState NORMAL g
        else if dge (Temperature environment) (highThreshold cfg) then
          set_highState OUTSIDE_LIMIT g
        else g
    end
  else g.

Definition evaluate_low_temperature
    (cfg : ConfigData) (environment : Environment) (g : Globals) : Globals :=
  let case_NORMAL (g : Globals) :=
    if dle (Temperature environment) (lowThreshold cfg) then
      let g := set_lowEvents (to_size_t (lowEvents g + 1)) g in
      let g := set_lowLatch true g in
      set_lowState OUTSIDE_LIMIT g
    else g in
  if lowEnable cfg then
    match lowState g with
    | UNKNOWN => case_NORMAL (set_lowState NORMAL g)
    | NORMAL => case_NORMAL g
    | OUTSIDE_LIMIT =>
        if dgt (Temperature environment) (lowThreshold cfg) then
          set_lowState INSIDE_LIMIT g
        else g
    | INSIDE_LIMIT =>
        if dge (Temperature environment)
               (dadd (lowThreshold cfg) (hysteresis cfg)) then
          let g := set_lowLatch false g in
          set_lowState NORMAL g
        else if dle (Temperature environment) (lowThreshold cfg) then
          set_lowState OUTSIDE_LIMIT g
        else g
    end
  else g.

Definition evaluate_high_humidity
    (cfg : ConfigData) (environment : Environment) (g : Globals) : Globals :=
  let case_NORMAL (g : Globals) :=
    if dge (Humidity environment) (humhighThreshold cfg) then
      let g := set_humhighEvents (to_size_t (humhighEvents g + 1)) g in
      let g := set_humhighLatch true g in
      set_humhighState OUTSIDE_LIMIT g
    else g in
  if humhighEnable cfg then
    match humhighState g with
    | UNKNOWN => case_NORMAL (set_humhighState NORMAL g)
    | NORMAL => case_NORMAL g
    | OUTSIDE_LIMIT =>
        if dlt (Humidity environment) (humhighThreshold cfg) then
          set_humhighState INSIDE_LIMIT g
        else g
    | INSIDE_LIMIT =>
        if dle (Humidity environment)
               (dsub (humhighThreshold cfg) (humhysteresis cfg)) then
          let g := set_humhighLatch false g in
          set_humhighState NORMAL g
        else if dge (Humidity environment) (humhighThreshold cfg) then
          set_humhighState OUTSIDE_LIMIT g
        else g
    end
  else g.

Definition evaluate_low_humidity
    (cfg : ConfigData) (environment : Environment) (g : Globals) : Globals :=
  let case_NORMAL (g : Globals) :=
    if dle (Humidity environment) (humlowThreshold cfg) then
      let g := set_humlowEvents (to_size_t (humlowEvents g + 1)) g in
      let g := set_humlowLatch true g in
      set_humlowState OUTSIDE_LIMIT g
    else g in
  if humlowEnable cfg then
    match humlowState g with
    | UNKNOWN => case_NORMAL (set_humlowState NORMAL g)
    | NORMAL => case_NORMAL g
    | OUTSIDE_LIMIT =>
        if dgt (Humidity environment) (humlowThreshold cfg) then
          set_humlowState INSIDE_LIMIT g
        else g
    | INSIDE_LIMIT =>
        if dge (Humidity environment)
               (dadd (humlowThreshold cfg) (humhysteresis cfg)) then
          let g := set_humlowLatch false g in
          set_humlowState NORMAL g
        else if dle (Humidity environment) (humlowThreshold cfg) then
          set_humlowState OUTSIDE_LIMIT g
        else g
    end
  else g.

Definition evaluate_user_environment
    (cfg : ConfigData) (environment : Environment) (g : Globals) : Globals :=
  let g := evaluate_high_temperature cfg environment g in
  let g := evaluate_low_temperature cfg environment g in
  let g := evaluate_high_humidity cfg environment g in
  evaluate_low_humidity cfg environment g.

End Operations.

(** ** The four monitors seen uniformly

    The source repeats one state machine four times.  A [Channel] names
    one copy; the projections below select its variables, its
    configuration members and its reading. *)

Inductive Direction := High | Low.

Inductive Channel :=
| TemperatureHigh
| TemperatureLow
| HumidityHigh
| HumidityLow.

Definition direction_of (c : Channel) : Direction :=
  match c with
  | TemperatureHigh | HumidityHigh => High
  | TemperatureLow | HumidityLow => Low
  end.

Definition state_of (c : Channel) (g : Globals) : EnvState :=
  match c with
  | TemperatureHigh => highState g
  | TemperatureLow => lowState g
  | HumidityHigh => humhighState g
  | HumidityLow => humlowState g
  end.

Definition events_of (c : Channel) (g : Globals) : Z :=
  match c with
  | TemperatureHigh => highEvents g
  | TemperatureLow => lowEvents g
  | HumidityHigh => humhighEvents g
  | HumidityLow => humlowEvents g
  end.

Definition events_last_of (c : Channel) (g : Globals) : Z :=
  match c with
  | TemperatureHigh => highEventsLast g
  | TemperatureLow => lowEventsLast g
  | HumidityHigh => humhighEventsLast g
  | HumidityLow => humlowEventsLast g
  end.

Definition latch_of (c : Channel) (g : Globals) : bool :=
  match c with
  | TemperatureHigh => highLatch g
  | TemperatureLow => lowLatch g
  | HumidityHigh => humhighLatch g
  | HumidityLow => humlowLatch g
  end.

Definition threshold_of (c : Channel) (cfg : ConfigData) : double :=
  match c with
  | TemperatureHigh => highThreshold cfg
  | TemperatureLow => lowThreshold cfg
  | HumidityHigh => humhighThreshold cfg
  | HumidityLow => humlowThreshold cfg
  end.

Definition hysteresis_of (c : Channel) (cfg : ConfigData) : double :=
  match c with
  | TemperatureHigh | TemperatureLow => hysteresis cfg
  | HumidityHigh | HumidityLow => humhysteresis cfg
  end.

Definition enabled_of (c : Channel) (cfg : ConfigData) : bool :=
  match c with
  | TemperatureHigh => highEnable cfg
  | TemperatureLow => lowEnable cfg
  | HumidityHigh => humhighEnable cfg
  | HumidityLow => humlowEnable cfg
  end.

Definition latch_mode_of (c : Channel) (cfg : ConfigData) : bool :=
  match c with
  | TemperatureHigh => highLatch_cfg cfg
  | TemperatureLow => lowLatch_cfg cfg
  | HumidityHigh => humhighLatch_cfg cfg
  | HumidityLow => humlowLatch_cfg cfg
  end.

Definition reading_of (c : Channel) (environment : Environment) : double :=
  match c with
  | TemperatureHigh | TemperatureLow => Temperature environment
  | HumidityHigh | HumidityLow => Humidity environment
  end.

(** The variables of one monitor. *)
Record Monitor := mkMonitor {
  mon_state : EnvState;
  mon_events : Z;
  mon_events_last : Z;
  mon_latch : bool
}.

Definition monitor_of (c : Channel) (g : Globals) : Monitor :=
  mkMonitor (state_of c g) (events_of c g) (events_last_of c g) (latch_of c g).

Section Monitors.

Variable SIZE_MAX : Z.

(** The accessor of a channel. *)
Definition events_accessor (c : Channel) : ConfigData -> Globals -> Z * Globals :=
  match c with
  | TemperatureHigh => environment_high_temperature_events SIZE_MAX
  | TemperatureLow => environment_low_temperature_events SIZE_MAX
  | HumidityHigh => environment_high_humidity_events SIZE_MAX
  | HumidityLow => environment_low_humidity_events SIZE_MAX
  end.

(** The if statement of a channel inside [evaluate_user_environment]. *)
Definition evaluate_channel (c : Channel) : ConfigData -> Environment -> Globals -> Globals :=
  match c with
  | TemperatureHigh => evaluate_high_temperature SIZE_MAX
  | TemperatureLow => evaluate_low_temperature SIZE_MAX
  | HumidityHigh => evaluate_high_humidity SIZE_MAX
  | HumidityLow => evaluate_low_humidity SIZE_MAX
  end.

(** *** The state machine as the specification words it

    One step of a channel monitor with direction [dir], threshold [T],
    hysteresis [H] and reading [v], on the monitor's own variables. *)

Definition outside_limit (dir : Direction) (v T : double) : bool :=
  match dir with High => dge v T | Low => dle v T end.

Definition inside_limit (dir : Direction) (v T : double) : bool :=
  match dir with High => dlt v T | Low => dgt v T end.

Definition hysteresis_cleared (dir : Direction) (v T H : double) : bool :=
  match dir with
  | High => dle v (dsub T H)
  | Low => dge v (dadd T H)
  end.

Definition ChannelMonitor_evaluate
    (dir : Direction) (enabled : bool) (T H v : double) (m : Monitor) : Monitor :=
  if enabled then
    match mon_state m with
    | UNKNOWN | NORMAL =>
        if outside_limit dir v T then
          mkMonitor OUTSIDE_LIMIT (to_size_t SIZE_MAX (mon_events m + 1))
                    (mon_events_last m) true
        else mkMonitor NORMAL (mon_events m) (mon_events_last m) (mon_latch m)
    | OUTSIDE_LIMIT =>
        if inside_limit dir v T then
          mkMonitor INSIDE_LIMIT (mon_events m) (mon_events_last m) (mon_latch m)
        else m
    | INSIDE_LIMIT =>
        if hysteresis_cleared dir v T H then
          mkMonitor NORMAL (mon_events m) (mon_events_last m) false
        else if outside_limit dir v T then
          mkMonitor OUTSIDE_LIMIT (mon_events m) (mon_events_last m) (mon_latch m)
        else m
    end
  else m.

(** *** Runs of the evaluator *)

(** One tick per element: the configuration current at the tick and the
    reading taken. *)
Fixpoint run (ticks : list (ConfigData * Environment)) (g : Globals) : Globals :=
  match ticks with
  | [] => g
  | (cfg, environment) :: rest =>
      run rest (evaluate_user_environment SIZE_MAX cfg environment g)
  end.

(** A tick is a crossing of channel [c] when the monitor leaves [NORMAL]
    (or the initial [UNKNOWN]) for [OUTSIDE_LIMIT]. *)
Definition is_crossing (c : Channel) (g g' : Globals) : bool :=
  match state_of c g, state_of c g' with
  | (UNKNOWN | NORMAL), OUTSIDE_LIMIT => true
  | _, _ => false
  end.

Fixpoint crossings (c : Channel) (ticks : list (ConfigData * Environment))
    (g : Globals) : Z :=
  match ticks with
  | [] => 0
  | (cfg, environment) :: rest =>
      let g' := evaluate_user_environment SIZE_MAX cfg environment g in
      (if is_crossing c g g' then 1 else 0) + crossings c rest g'
  end.

(** The values the event counter of [c] takes after each tick. *)
Fixpoint counter_trace (c : Channel) (ticks : list (ConfigData * Environment))
    (g : Globals) : list Z :=
  match ticks with
  | [] => []
  | (cfg, environment) :: rest =>
      let g' := evaluate_user_environment SIZE_MAX cfg environment g in
      events_of c g' :: counter_trace c rest g'
  end.

(** Every [size_t] variable holds a value of its type. *)
Definition size_t_range (x : Z) : Prop := 0 <= x <= SIZE_MAX.

(** The states the program can be in: the static initialisers, followed
    by ticks and accessor calls in any order, under any configuration. *)
Inductive reachable : Globals -> Prop :=
| reachable_initial : reachable initial_globals
| reachable_tick cfg environment g :
    reachable g -> reachable (evaluate_user_environment SIZE_MAX cfg environment g)
| reachable_accessor c cfg g :
    reachable g -> reachable (snd (events_accessor c cfg g)).

End Monitors.

(** ** Predicates and scenarios used in the statements *)

(** Writes of the configuration service. *)

Definition set_highEnable (b : bool) (cfg : ConfigData) : ConfigData :=
  mkConfigData (highThreshold cfg) b (highLatch_cfg cfg)
    (lowThreshold cfg) (lowEnable cfg) (lowLatch_cfg cfg) (hysteresis cfg)
    (humhighThreshold cfg) (humhighEnable cfg) (humhighLatch_cfg cfg)
    (humlowThreshold cfg) (humlowEnable cfg) (humlowLatch_cfg cfg)
    (humhysteresis cfg).

Definition set_highLatch_cfg (b : bool) (cfg : ConfigData) : ConfigData :=
  mkConfigData (highThreshold cfg) (highEnable cfg) b
    (lowThreshold cfg) (lowEnable cfg) (lowLatch_cfg cfg) (hysteresis cfg)
    (humhighThreshold cfg) (humhighEnable cfg) (humhighLatch_cfg cfg)
    (humlowThreshold cfg) (humlowEnable cfg) (humlowLatch_cfg cfg)
    (humhysteresis cfg).

Definition set_lowEnable (b : bool) (cfg : ConfigData) : ConfigData :=
  mkConfigData (highThreshold cfg) (highEnable cfg) (highLatch_cfg cfg)
    (lowThreshold cfg) b (lowLatch_cfg cfg) (hysteresis cfg)
    (humhighThreshold cfg) (humhighEnable cfg) (humhighLatch_cfg cfg)
    (humlowThreshold cfg) (humlowEnable cfg) (humlowLatch_cfg cfg)
    (humhysteresis cfg).

(** [size_t] of the 32-bit target, for the concrete scenarios. *)
Definition SIZE_MAX_32 : Z := 4294967295.

(** The monitor of [c] is left as it was. *)
Definition unchanged (c : Channel) (g g' : Globals) : Prop :=
  monitor_of c g' = monitor_of c g.

(** The default configuration with the temperature-high channel enabled. *)
Definition config_high_enabled : ConfigData := set_highEnable true _environmentConfig.

(** The default configuration with the temperature-low channel enabled:
    threshold 25, hysteresis 5. *)
Definition config_low_enabled : ConfigData := set_lowEnable true _environmentConfig.

(** The invariant tying the latch to the state. *)
Definition latch_follows_state (m : Monitor) : Prop :=
  match mon_state m with
  | UNKNOWN => False
  | NORMAL => mon_latch m = false
  | OUTSIDE_LIMIT | INSIDE_LIMIT => mon_latch m = true
  end.

(** The counter delta of one evaluation, from the state, the reading and
    the configuration of the monitor. *)
Definition counter_delta (dir : Direction) (enabled : bool) (T v : double)
    (s : EnvState) : Z :=
  match s with
  | UNKNOWN | NORMAL => if enabled && outside_limit dir v T then 1 else 0
  | OUTSIDE_LIMIT | INSIDE_LIMIT => 0
  end.

(** A state in which the temperature-high counter holds [SIZE_MAX]. *)
Definition globals_counter_at_max : Globals :=
  set_highEvents SIZE_MAX_32 initial_globals.

(** The end-to-end scenario: the default configuration with the
    temperature-high channel enabled, in latch or count mode, and the
    temperature readings 30, 46, 44, 40, 39 (any humidity). *)
Definition end_to_end_config (latch_mode : bool) : ConfigData :=
  set_highLatch_cfg latch_mode (set_highEnable true _environmentConfig).

Definition end_to_end_ticks (latch_mode : bool) (h0 h1 h2 h3 h4 : double)
    : list (ConfigData * Environment) :=
  map (pair (end_to_end_config latch_mode))
    [mkEnvironment 30 h0; mkEnvironment 46 h1; mkEnvironment 44 h2;
     mkEnvironment 40 h3; mkEnvironment 39 h4].

(** Two crossings of the temperature-high monitor, ending outside the
    limit, and the recovery that follows. *)
Definition two_crossings (cfg : ConfigData) : list (ConfigData * Environment) :=
  map (pair cfg)
    [mkEnvironment 46 50; mkEnvironment 44 50; mkEnvironment 40 50;
     mkEnvironment 46 50].

Definition recovery (cfg : ConfigData) : list (ConfigData * Environment) :=
  map (pair cfg) [mkEnvironment 44 50; mkEnvironment 40 50].

(** ** environment.cpp: the tick *)

Definition SYSTEM_ERROR_NONE : Z := 0.

(** [environment_tick]: the reading returned by [get_environment] is an
    input. *)
Definition environment_tick (SIZE_MAX : Z)
    (cfg : ConfigData) (environment : Environment) (g : Globals) : Z * Globals :=
  (SYSTEM_ERROR_NONE, evaluate_user_environment SIZE_MAX cfg environment g).

(** ** main.cpp

    [triggerLocPub] belongs to the tracker runtime; a call is recorded as
    a pair of its two arguments, in call order. *)

Module Trigger.
Inductive t := NORMAL | IMMEDIATE.
End Trigger.

Definition LocPub : Type := Trigger.t * String.string.

(** The values of [power_source_t] named in [powerState]; every other
    value of the cast integer takes the [default] label. *)
Inductive power_source_t :=
| POWER_SOURCE_UNKNOWN
| POWER_SOURCE_VIN
| POWER_SOURCE_USB_HOST
| POWER_SOURCE_USB_ADAPTER
| POWER_SOURCE_USB_OTG
| POWER_SOURCE_BATTERY
| POWER_SOURCE_other (raw : Z).

(** The [switch] of [powerState]. *)
Definition newPowerState (ps : power_source_t) : bool :=
  match ps with
  | POWER_SOURCE_VIN
  | POWER_SOURCE_USB_HOST
  | POWER_SOURCE_USB_ADAPTER
  | POWER_SOURCE_USB_OTG => true
  | POWER_SOURCE_UNKNOWN
  | POWER_SOURCE_BATTERY
  | POWER_SOURCE_other _ => false
  end.

(** [powerState]: the value of [System.powerSource()] is an input, the
    function-local static [oldPowerState] is threaded.  The result is the
    return value, the calls of [triggerLocPub] and the static afterwards. *)
Definition powerState (ps : power_source_t) (oldPowerState : bool)
    : bool * list LocPub * bool :=
  if negb (Bool.eqb oldPowerState (newPowerState ps)) then
    let pub := (Trigger.IMMEDIATE,
                if Bool.eqb oldPowerState true then "pwr_l" else "pwr_r")%string in
    let oldPowerState := newPowerState ps in
    (oldPowerState, [pub], oldPowerState)
  else (oldPowerState, [], oldPowerState).

(** The initial value of the static [oldPowerState]. *)
Definition initial_oldPowerState : bool := true.

(** [envState]: the four accessors in source order, each followed by its
    conditional [triggerLocPub]. *)
Definition envState (SIZE_MAX : Z) (cfg : ConfigData) (g : Globals)
    : list LocPub * Globals :=
  let '(r, g) := environment_high_temperature_events SIZE_MAX cfg g in
  let pubs := if r =? 0 then [] else [(Trigger.NORMAL, "envtemp_h"%string)] in
  let '(r, g) := environment_low_temperature_events SIZE_MAX cfg g in
  let pubs := pubs ++ (if r =? 0 then [] else [(Trigger.NORMAL, "envtemp_l"%string)]) in
  let '(r, g) := environment_high_humidity_events SIZE_MAX cfg g in
  let pubs := pubs ++ (if r =? 0 then [] else [(Trigger.NORMAL, "envhum_h"%string)]) in
  let '(r, g) := environment_low_humidity_events SIZE_MAX cfg g in
  let pubs := pubs ++ (if r =? 0 then [] else [(Trigger.NORMAL, "envhum_l"%string)]) in
  (pubs, g).

(** The variables that survive from one iteration of [loop] to the next. *)
Record AppState := mkAppState {
  app_globals : Globals;
  app_oldPowerState : bool
}.

Definition initial_app : AppState := mkAppState initial_globals initial_oldPowerState.

(** One iteration of [loop]: [environment_tick], [envState],
    [powerState].  The inputs of the iteration are the configuration in
    force, the reading and the power source; the result is the list of
    [triggerLocPub] calls in order.  The final call into the tracker
    runtime is outside the sources. *)
Definition loop (SIZE_MAX : Z) (cfg : ConfigData) (environment : Environment)
    (ps : power_source_t) (s : AppState) : list LocPub * AppState :=
  let '(_, g) := environment_tick SIZE_MAX cfg environment (app_globals s) in
  let '(pubs_env, g) := envState SIZE_MAX cfg g in
  let '(_, pubs_pwr, old) := powerState ps (app_oldPowerState s) in
  (pubs_env ++ pubs_pwr, mkAppState g old).

(** Successive iterations; the result lists the publishes of each. *)
Fixpoint loops (SIZE_MAX : Z)
    (inputs : list (ConfigData * Environment * power_source_t)) (s : AppState)
    : list (list LocPub) * AppState :=
  match inputs with
  | [] => ([], s)
  | (cfg, environment, ps) :: rest =>
      let '(pubs, s) := loop SIZE_MAX cfg environment ps s in
      let '(trace, s) := loops SIZE_MAX rest s in
      (pubs :: trace, s)
  end.

(** Successive calls of [powerState]; the result concatenates the
    publishes. *)
Fixpoint powerStates (sources : list power_source_t) (oldPowerState : bool)
    : list LocPub * bool :=
  match sources with
  | [] => ([], oldPowerState)
  | ps :: rest =>
      let '(_, pubs, old) := powerState ps oldPowerState in
      let '(more, old) := powerStates rest old in
      (pubs ++ more, old)
  end.

(** ** Vocabulary of the further properties *)

Definition all_channels : list Channel :=
  [TemperatureHigh; TemperatureLow; HumidityHigh; HumidityLow].

(** The reason string [envState] publishes for a channel. *)
Definition trigger_name (c : Channel) : String.string :=
  match c with
  | TemperatureHigh => "envtemp_h"
  | TemperatureLow => "envtemp_l"
  | HumidityHigh => "envhum_h"
  | HumidityLow => "envhum_l"
  end%string.

(** Whether the publishes of one iteration contain the trigger of [c]. *)
Definition published (c : Channel) (pubs : list LocPub) : bool :=
  existsb (fun p => match fst p with
                    | Trigger.NORMAL => String.eqb (snd p) (trigger_name c)
                    | Trigger.IMMEDIATE => false
                    end) pubs.

(** The four [if] statements of [evaluate_user_environment] taken in the
    order of a list of channels (the head is evaluated last). *)
Definition evaluate_in_order (SIZE_MAX : Z) (order : list Channel)
    (cfg : ConfigData) (environment : Environment) (g : Globals) : Globals :=
  fold_right (fun c g => evaluate_channel SIZE_MAX c cfg environment g) g order.

(** The edges of the state machine. *)
Definition transition_allowed (s s' : EnvState) : bool :=
  match s, s' with
  | UNKNOWN, (UNKNOWN | NORMAL | OUTSIDE_LIMIT) => true
  | NORMAL, (NORMAL | OUTSIDE_LIMIT) => true
  | OUTSIDE_LIMIT, (OUTSIDE_LIMIT | INSIDE_LIMIT) => true
  | INSIDE_LIMIT, (INSIDE_LIMIT | NORMAL | OUTSIDE_LIMIT) => true
  | _, _ => false
  end.

(** The least number of ticks before the next crossing, by state. *)
Definition ticks_to_crossing (s : EnvState) : Z :=
  match s with
  | UNKNOWN | NORMAL => 1
  | INSIDE_LIMIT => 2
  | OUTSIDE_LIMIT => 3
  end.

(** Ticks of [evaluate_user_environment] interleaved with calls of the
    accessor of one channel. *)
Inductive Action :=
| Tick (cfg : ConfigData) (environment : Environment)
| Report (cfg : ConfigData).

(** Runs the actions; returns the sum of the values reported, the number
    of crossings of [c] and the variables at the end. *)
Fixpoint run_actions (SIZE_MAX : Z) (c : Channel) (actions : list Action)
    (g : Globals) : Z * Z * Globals :=
  match actions with
  | [] => (0, 0, g)
  | Tick cfg environment :: rest =>
      let g' := evaluate_user_environment SIZE_MAX cfg environment g in
      let '(reported, crossed, g'') := run_actions SIZE_MAX c rest g' in
      (reported, (if is_crossing c g g' then 1 else 0) + crossed, g'')
  | Report cfg :: rest =>
      let '(r, g') := events_accessor SIZE_MAX c cfg g in
      let '(reported, crossed, g'') := run_actions SIZE_MAX c rest g' in
      (r + reported, crossed, g'')
  end.

(** The states of [c] after each tick of a run, and whether each tick
    was a crossing. *)
Fixpoint crossing_trace (SIZE_MAX : Z) (c : Channel)
    (ticks : list (ConfigData * Environment)) (g : Globals) : list bool :=
  match ticks with
  | [] => []
  | (cfg, environment) :: rest =>
      let g' := evaluate_user_environment SIZE_MAX cfg environment g in
      is_crossing c g g' :: crossing_trace SIZE_MAX c rest g'
  end.

Fixpoint state_trace (SIZE_MAX : Z) (c : Channel)
    (ticks : list (ConfigData * Environment)) (g : Globals) : list EnvState :=
  match ticks with
  | [] => []
  | (cfg, environment) :: rest =>
      let g' := evaluate_user_environment SIZE_MAX cfg environment g in
      state_of c g' :: state_trace SIZE_MAX c rest g'
  end.

(** The publishes of successive [powerState] calls alternate, starting
    with the one that fits the state they start from. *)
Fixpoint alternating (oldPowerState : bool) (pubs : list LocPub) : Prop :=
  match pubs with
  | [] => True
  | p :: rest =>
      p = (Trigger.IMMEDIATE, if oldPowerState then "pwr_l" else "pwr_r")%string
      /\ alternating (negb oldPowerState) rest
  end.

(** The number of calls of [powerState], in a sequence of power sources,
    at which the powered / unpowered reading differs from the one held. *)
Fixpoint power_changes (sources : list power_source_t) (oldPowerState : bool) : nat :=
  match sources with
  | [] => O
  | ps :: rest =>
      (if Bool.eqb oldPowerState (newPowerState ps) then O else 1%nat)
      + power_changes rest (newPowerState ps)
  end.

(** * Properties *)

Section Refinement.

Variable SIZE_MAX : Z.

Ltac case_block :=
  repeat match goal with
         | |- context [if ?b then _ else _] => destruct b
         | |- context [match ?s with UNKNOWN => _ | _ => _ end] => destruct s eqn:?
         end.

(** The [if] statement of a channel steps that channel's monitor as
    [ChannelMonitor_evaluate] does. *)
Lemma evaluate_channel_own (c : Channel) cfg environment g :
  monitor_of c (evaluate_channel SIZE_MAX c cfg environment g)
  = ChannelMonitor_evaluate SIZE_MAX (direction_of c) (enabled_of c cfg)
      (threshold_of c cfg) (hysteresis_of c cfg) (reading_of c environment)
      (monitor_of c g).
Proof.
  destruct c; cbn -[to_size_t];
    unfold evaluate_high_temperature, evaluate_low_temperature,
      evaluate_high_humidity, evaluate_low_humidity,
      ChannelMonitor_evaluate, monitor_of; cbn -[to_size_t];
    case_block; cbn -[to_size_t]; congruence.
Qed.

(** ... and leaves the variables of every other monitor alone. *)
Lemma evaluate_channel_other (c c' : Channel) cfg environment g :
  c <> c' ->
  monitor_of c (evaluate_channel SIZE_MAX c' cfg environment g) = monitor_of c g.
Proof.
  intros Hne.
  destruct c, c'; try congruence; cbn -[to_size_t];
    unfold evaluate_high_temperature, evaluate_low_temperature,
      evaluate_high_humidity, evaluate_low_humidity, monitor_of;
    case_block; reflexivity.
Qed.

Lemma evaluate_user_environment_blocks cfg environment g :
  evaluate_user_environment SIZE_MAX cfg environment g
  = evaluate_channel SIZE_MAX HumidityLow cfg environment
      (evaluate_channel SIZE_MAX HumidityHigh cfg environment
         (evaluate_channel SIZE_MAX TemperatureLow cfg environment
            (evaluate_channel SIZE_MAX TemperatureHigh cfg environment g))).
Proof. reflexivity. Qed.

(** [evaluate_user_environment] refines four independent copies of the
    monitor worded in the specification. *)
Lemma evaluate_user_environment_monitor (c : Channel) cfg environment g :
  monitor_of c (evaluate_user_environment SIZE_MAX cfg environment g)
  = ChannelMonitor_evaluate SIZE_MAX (direction_of c) (enabled_of c cfg)
      (threshold_of c cfg) (hysteresis_of c cfg) (reading_of c environment)
      (monitor_of c g).
Proof.
  rewrite evaluate_user_environment_blocks.
  destruct c;
    repeat first
      [ rewrite evaluate_channel_own
      | rewrite evaluate_channel_other by discriminate ];
    reflexivity.
Qed.

End Refinement.

(** ** Comparisons of [double] *)

Lemma SFcompare_antisym (x y : spec_float) :
  SFcompare y x = option_map CompOpp (SFcompare x y).
Proof.
  destruct x as [sx|sx| |sx mx ex], y as [sy|sy| |sy my ey]; cbn;
    try reflexivity;
    try (destruct sx; reflexivity);
    try (destruct sy; reflexivity);
    try (destruct sx, sy; reflexivity).
  change (PosDef.Pos.compare_cont Eq my mx) with (Pos.compare my mx).
  change (PosDef.Pos.compare_cont Eq mx my) with (Pos.compare mx my).
  rewrite (Z.compare_antisym ey ex), (Pos.compare_antisym mx my).
  destruct sx, sy; try reflexivity;
    destruct (ey ?= ex)%Z; cbn; reflexivity.
Qed.

(** [x >= y] excludes [x < y]. *)
Lemma dge_not_dlt (x y : double) : dge x y = true -> dlt x y = false.
Proof.
  unfold dge, dlt. rewrite leb_spec, ltb_spec. unfold SFleb, SFltb.
  rewrite (SFcompare_antisym (Prim2SF y)).
  destruct (SFcompare (Prim2SF y) (Prim2SF x)) as [[ | | ]|]; cbn; congruence.
Qed.

(** ** Arithmetic of [size_t] *)

Lemma to_size_t_small (M x : Z) : 0 <= x <= M -> to_size_t M x = x.
Proof. intros H. unfold to_size_t. apply Z.mod_small. lia. Qed.

Lemma to_size_t_range (M x : Z) : 0 <= M -> 0 <= to_size_t M x <= M.
Proof.
  intros H. unfold to_size_t.
  pose proof (Z.mod_pos_bound x (M + 1) ltac:(lia)). lia.
Qed.

Lemma to_size_t_succ_max (M : Z) : 0 <= M -> to_size_t M (M + 1) = 0.
Proof. intros H. unfold to_size_t. apply Z.mod_same. lia. Qed.

Lemma to_size_t_diag (M x : Z) : to_size_t M (x - x) = 0.
Proof. unfold to_size_t. rewrite Z.sub_diag. apply Zmod_0_l. Qed.

Section Transitions.

Variable SIZE_MAX : Z.

Lemma monitor_of_eq (c : Channel) (g g' : Globals) :
  monitor_of c g' = monitor_of c g ->
  state_of c g' = state_of c g /\ events_of c g' = events_of c g /\
  events_last_of c g' = events_last_of c g /\ latch_of c g' = latch_of c g.
Proof. unfold monitor_of. intros H. injection H. auto. Qed.

Lemma monitor_fields (c : Channel) (g : Globals) (m : Monitor) :
  monitor_of c g = m ->
  state_of c g = mon_state m /\ events_of c g = mon_events m /\
  events_last_of c g = mon_events_last m /\ latch_of c g = mon_latch m.
Proof. intros <-. cbn. auto. Qed.

(** C1. One evaluation of an enabled High monitor with threshold [T] and
    hysteresis [H]: from NORMAL a reading [>= T] increments the counter
    (as [size_t]), sets the latch and enters OUTSIDE_LIMIT; from
    OUTSIDE_LIMIT a reading [< T] enters INSIDE_LIMIT; from INSIDE_LIMIT a
    reading [<= T - H] clears the latch and enters NORMAL, otherwise a
    reading [>= T] re-enters OUTSIDE_LIMIT without counting; when no
    condition of the current state matches, state, counter and latch
    stay as they are. *)
Theorem high_direction_transitions (c : Channel) cfg environment g :
  direction_of c = High ->
  enabled_of c cfg = true ->
  let v := reading_of c environment in
  let T := threshold_of c cfg in
  let H := hysteresis_of c cfg in
  let g' := evaluate_user_environment SIZE_MAX cfg environment g in
  (state_of c g = NORMAL -> dge v T = true ->
     state_of c g' = OUTSIDE_LIMIT /\
     events_of c g' = to_size_t SIZE_MAX (events_of c g + 1) /\
     latch_of c g' = true)
  /\ (state_of c g = OUTSIDE_LIMIT -> dlt v T = true ->
     state_of c g' = INSIDE_LIMIT /\
     events_of c g' = events_of c g /\ latch_of c g' = latch_of c g)
  /\ (state_of c g = INSIDE_LIMIT -> dle v (dsub T H) = true ->
     state_of c g' = NORMAL /\
     events_of c g' = events_of c g /\ latch_of c g' = false)
  /\ (state_of c g = INSIDE_LIMIT -> dle v (dsub T H) = false -> dge v T = true ->
     state_of c g' = OUTSIDE_LIMIT /\
     events_of c g' = events_of c g /\ latch_of c g' = latch_of c g)
  /\ (state_of c g = NORMAL -> dge v T = false -> unchanged c g g')
  /\ (state_of c g = OUTSIDE_LIMIT -> dlt v T = false -> unchanged c g g')
  /\ (state_of c g = INSIDE_LIMIT -> dle v (dsub T H) = false ->
      dge v T = false -> unchanged c g g').
Proof.
  intros Hdir Hen v T H g'.
  pose proof (evaluate_user_environment_monitor SIZE_MAX c cfg environment g) as R.
  fold g' in R. rewrite Hdir, Hen in R. fold v T H in R.
  unfold ChannelMonitor_evaluate, unchanged in *.
  change (mon_state (monitor_of c g)) with (state_of c g) in R.
  cbn [outside_limit inside_limit hysteresis_cleared] in R.
  repeat split; intros;
    repeat match goal with
           | E : state_of c g = _ |- _ => rewrite E in R; revert E
           | E : _ = true |- _ => rewrite E in R; clear E
           | E : _ = false |- _ => rewrite E in R; clear E
           end;
    intros E; apply monitor_fields in R; cbn in R;
    unfold monitor_of; intuition congruence.
Qed.

End Transitions.

Lemma high_direction_transitions_witness :
  (direction_of TemperatureHigh = High /\
   enabled_of TemperatureHigh config_high_enabled = true) /\
  let g' := evaluate_user_environment SIZE_MAX_32 config_high_enabled
              (mkEnvironment 46 50) initial_globals in
  state_of TemperatureHigh g' = OUTSIDE_LIMIT /\
  events_of TemperatureHigh g' = 1 /\
  latch_of TemperatureHigh g' = true.
Proof.
  split; [split; reflexivity|].
  exact (proj1 (high_direction_transitions SIZE_MAX_32 TemperatureHigh
                  config_high_enabled (mkEnvironment 46 50) initial_globals
                  eq_refl eq_refl) eq_refl eq_refl).
Defined.

Section LowTransitions.

Variable SIZE_MAX : Z.

(** C2. One evaluation of an enabled Low monitor mirrors the High one:
    NORMAL to OUTSIDE_LIMIT (counter incremented, latch set) on a reading
    [<= T]; OUTSIDE_LIMIT to INSIDE_LIMIT on a reading [> T]; INSIDE_LIMIT
    to NORMAL (latch cleared) on a reading [>= T + H], otherwise back to
    OUTSIDE_LIMIT, uncounted, on a reading [<= T].  With [T = 25] and
    [H = 5], after the readings 20 and 26 the latch is still set, and the
    third reading clears it exactly when it is [>= 30]; 31 does. *)
Theorem low_direction_transitions (c : Channel) cfg environment g :
  direction_of c = Low ->
  enabled_of c cfg = true ->
  let v := reading_of c environment in
  let T := threshold_of c cfg in
  let H := hysteresis_of c cfg in
  let g' := evaluate_user_environment SIZE_MAX cfg environment g in
  (state_of c g = NORMAL -> dle v T = true ->
     state_of c g' = OUTSIDE_LIMIT /\
     events_of c g' = to_size_t SIZE_MAX (events_of c g + 1) /\
     latch_of c g' = true)
  /\ (state_of c g = OUTSIDE_LIMIT -> dgt v T = true ->
     state_of c g' = INSIDE_LIMIT /\
     events_of c g' = events_of c g /\ latch_of c g' = latch_of c g)
  /\ (state_of c g = INSIDE_LIMIT -> dge v (dadd T H) = true ->
     state_of c g' = NORMAL /\
     events_of c g' = events_of c g /\ latch_of c g' = false)
  /\ (state_of c g = INSIDE_LIMIT -> dge v (dadd T H) = false -> dle v T = true ->
     state_of c g' = OUTSIDE_LIMIT /\
     events_of c g' = events_of c g /\ latch_of c g' = latch_of c g)
  /\ (forall e1 e2 e3 : Environment,
        T = 25%float -> H = 5%float -> state_of c g = NORMAL ->
        reading_of c e1 = 20%float -> reading_of c e2 = 26%float ->
        let g1 := evaluate_user_environment SIZE_MAX cfg e1 g in
        let g2 := evaluate_user_environment SIZE_MAX cfg e2 g1 in
        let g3 := evaluate_user_environment SIZE_MAX cfg e3 g2 in
        latch_of c g1 = true /\ latch_of c g2 = true /\
        latch_of c g3 = negb (dge (reading_of c e3) 30) /\
        (reading_of c e3 = 31%float -> latch_of c g3 = false)).
Proof.
  intros Hdir Hen v T H g'.
  assert (Hgen :
    forall e g0,
      monitor_of c (evaluate_user_environment SIZE_MAX cfg e g0)
      = ChannelMonitor_evaluate SIZE_MAX Low true T H (reading_of c e)
          (monitor_of c g0)).
  { intros e g0. rewrite evaluate_user_environment_monitor.
    now rewrite Hdir, Hen. }
  pose proof (Hgen environment g) as R. fold g' v in R.
  unfold ChannelMonitor_evaluate in R.
  change (mon_state (monitor_of c g)) with (state_of c g) in R.
  cbn [outside_limit inside_limit hysteresis_cleared] in R.
  repeat match goal with |- _ /\ _ => split end.
  1-4: intros;
    repeat match goal with
           | E : state_of _ _ = _ |- _ => rewrite E in R; revert E
           | E : _ = true |- _ => rewrite E in R; clear E
           | E : _ = false |- _ => rewrite E in R; clear E
           end;
    intros E; apply monitor_fields in R; cbn in R; intuition congruence.
  clear R. intros e1 e2 e3 HT HH Hs H1 H2 g1 g2 g3.
  pose proof (Hgen e1 g) as R1. pose proof (Hgen e2 g1) as R2.
  pose proof (Hgen e3 g2) as R3. fold g1 in R1. fold g2 in R2. fold g3 in R3.
  rewrite HT, HH in *. rewrite H1 in R1. rewrite H2 in R2.
  unfold ChannelMonitor_evaluate in R1.
  change (mon_state (monitor_of c g)) with (state_of c g) in R1.
  rewrite Hs in R1. cbn in R1.
  rewrite R1 in R2. cbn in R2.
  rewrite R2 in R3. unfold ChannelMonitor_evaluate in R3.
  cbn [mon_state mon_events mon_events_last mon_latch
       hysteresis_cleared outside_limit] in R3.
  change (dadd 25 5) with 30%float in R3.
  apply monitor_fields in R1, R2, R3. cbn in R1, R2.
  assert (L3 : latch_of c g3 = negb (dge (reading_of c e3) 30)).
  { destruct (dge (reading_of c e3) 30);
      [|destruct (dle (reading_of c e3) 25)]; cbn in R3; tauto. }
  repeat split; try tauto.
  intros E. rewrite L3, E. reflexivity.
Qed.

End LowTransitions.

Lemma low_direction_transitions_witness :
  (direction_of TemperatureLow = Low /\
   enabled_of TemperatureLow config_low_enabled = true) /\
  let g1 := evaluate_user_environment SIZE_MAX_32 config_low_enabled
              (mkEnvironment 20 50) initial_globals in
  let g2 := evaluate_user_environment SIZE_MAX_32 config_low_enabled
              (mkEnvironment 26 50) g1 in
  let g3 := evaluate_user_environment SIZE_MAX_32 config_low_enabled
              (mkEnvironment 31 50) g2 in
  latch_of TemperatureLow g1 = true /\ latch_of TemperatureLow g2 = true /\
  latch_of TemperatureLow g3 = false.
Proof.
  split; [split; reflexivity|].
  destruct (proj2 (proj2 (proj2 (proj2
              (low_direction_transitions SIZE_MAX_32 TemperatureLow
                 config_low_enabled (mkEnvironment 20 50) initial_globals
                 eq_refl eq_refl))))
              (mkEnvironment 20 50) (mkEnvironment 26 50) (mkEnvironment 31 50)
              eq_refl eq_refl eq_refl eq_refl eq_refl)
    as (L1 & L2 & _ & L3).
  exact (conj L1 (conj L2 (L3 eq_refl))).
Defined.

(** ** Shared facts about accessors, runs and reachable states *)

Section Runs.

Variable SIZE_MAX : Z.

(** An accessor writes the snapshot of its own channel and nothing else. *)
Lemma events_accessor_frame (c c' : Channel) cfg g :
  state_of c' (snd (events_accessor SIZE_MAX c cfg g)) = state_of c' g /\
  events_of c' (snd (events_accessor SIZE_MAX c cfg g)) = events_of c' g /\
  latch_of c' (snd (events_accessor SIZE_MAX c cfg g)) = latch_of c' g /\
  (c' <> c ->
   events_last_of c' (snd (events_accessor SIZE_MAX c cfg g)) = events_last_of c' g).
Proof.
  destruct c, c'; cbn; repeat split; intros; congruence.
Qed.

Lemma events_accessor_result (c : Channel) cfg g :
  fst (events_accessor SIZE_MAX c cfg g)
  = (if latch_mode_of c cfg then size_t_of_bool (latch_of c g)
     else to_size_t SIZE_MAX (events_of c g - events_last_of c g))
  /\ events_last_of c (snd (events_accessor SIZE_MAX c cfg g)) = events_of c g.
Proof. destruct c; cbn -[to_size_t]; split; reflexivity. Qed.

Lemma run_reachable (ticks : list (ConfigData * Environment)) g :
  reachable SIZE_MAX g -> reachable SIZE_MAX (run SIZE_MAX ticks g).
Proof.
  revert g. induction ticks as [|[cfg e] ticks IH]; intros g Hg; cbn; [exact Hg|].
  apply IH. now constructor.
Qed.

(** On one tick the counter of a channel is incremented exactly when the
    tick is a crossing, and the snapshot is not written. *)
Lemma evaluate_events (c : Channel) cfg environment g :
  let g' := evaluate_user_environment SIZE_MAX cfg environment g in
  events_of c g'
  = (if is_crossing c g g' then to_size_t SIZE_MAX (events_of c g + 1)
     else events_of c g)
  /\ events_last_of c g' = events_last_of c g.
Proof.
  intros g'. unfold is_crossing.
  pose proof (evaluate_user_environment_monitor SIZE_MAX c cfg environment g) as R.
  fold g' in R. apply monitor_fields in R.
  destruct R as (Rs & Re & Rl & _). rewrite Rs, Re, Rl. clear.
  unfold ChannelMonitor_evaluate.
  change (mon_state (monitor_of c g)) with (state_of c g).
  destruct (enabled_of c cfg), (state_of c g) eqn:Es; cbn -[to_size_t];
    repeat match goal with
           | |- context [outside_limit ?d ?v ?T] =>
               destruct (outside_limit d v T); cbn -[to_size_t]
           | |- context [inside_limit ?d ?v ?T] =>
               destruct (inside_limit d v T); cbn -[to_size_t]
           | |- context [hysteresis_cleared ?d ?v ?T ?H] =>
               destruct (hysteresis_cleared d v T H); cbn -[to_size_t]
           end;
    rewrite ?Es; auto.
Qed.

(** Over a run the counter advances, modulo the range of [size_t], by
    the number of crossings. *)
Lemma run_events (c : Channel) ticks g :
  to_size_t SIZE_MAX (events_of c (run SIZE_MAX ticks g))
  = to_size_t SIZE_MAX (events_of c g + crossings SIZE_MAX c ticks g)
  /\ events_last_of c (run SIZE_MAX ticks g) = events_last_of c g.
Proof.
  revert g. induction ticks as [|[cfg e] ticks IH]; intros g; cbn -[to_size_t].
  - now rewrite Z.add_0_r.
  - destruct (IH (evaluate_user_environment SIZE_MAX cfg e g)) as [IHe IHl].
    destruct (evaluate_events c cfg e g) as [He Hl].
    rewrite IHe, IHl, Hl, He. split; [|reflexivity].
    destruct (is_crossing c g _).
    + unfold to_size_t. rewrite Zplus_mod_idemp_l. f_equal. lia.
    + reflexivity.
Qed.

Lemma ChannelMonitor_evaluate_invariant dir enabled T H v m :
  latch_follows_state m ->
  latch_follows_state (ChannelMonitor_evaluate SIZE_MAX dir enabled T H v m).
Proof.
  unfold latch_follows_state, ChannelMonitor_evaluate.
  destruct enabled, (mon_state m) eqn:Es; cbn -[to_size_t]; intros Hm;
    repeat match goal with
           | |- context [if ?b then _ else _] => destruct b; cbn -[to_size_t]
           end;
    rewrite ?Es; first [contradiction | assumption | reflexivity].
Qed.

Lemma reachable_invariant (c : Channel) g :
  reachable SIZE_MAX g -> latch_follows_state (monitor_of c g).
Proof.
  induction 1 as [|cfg e g Hg IH|c' cfg g Hg IH].
  - destruct c; cbn; reflexivity.
  - rewrite evaluate_user_environment_monitor.
    now apply ChannelMonitor_evaluate_invariant.
  - destruct (events_accessor_frame c' c cfg g) as (Es & _ & El & _).
    unfold latch_follows_state in *. cbn in *. now rewrite Es, El.
Qed.

End Runs.

Section Invariants.

Variable SIZE_MAX : Z.

(** C10. In every reachable state, and for each of the four monitors,
    the latch is set exactly when the state is OUTSIDE_LIMIT or
    INSIDE_LIMIT: it is never set in NORMAL and never clear outside
    NORMAL. *)
Theorem latch_iff_outside_or_inside (c : Channel) (g : Globals) :
  reachable SIZE_MAX g ->
  (latch_of c g = true <->
   state_of c g = OUTSIDE_LIMIT \/ state_of c g = INSIDE_LIMIT)
  /\ (state_of c g = NORMAL -> latch_of c g = false)
  /\ (state_of c g <> NORMAL -> latch_of c g = true).
Proof.
  intros Hg. pose proof (reachable_invariant SIZE_MAX c g Hg) as Inv.
  unfold latch_follows_state in Inv. cbn in Inv.
  destruct (state_of c g); try contradiction; rewrite Inv;
    repeat split; intros; try congruence; auto.
  destruct H; discriminate.
Qed.

(** C4. A monitor whose enable flag is false is not touched by an
    evaluation, whatever the reading: state, counter, snapshot and latch
    stay as they are, over any number of ticks.  A latch that was set
    stays set, and the first evaluation after re-enabling continues from
    the state held, exactly as if the disabled ticks had not happened. *)
Theorem disabled_monitor_frozen (c : Channel) cfg environment ticks g :
  enabled_of c cfg = false ->
  Forall (fun t => enabled_of c (fst t) = false) ticks ->
  unchanged c g (evaluate_user_environment SIZE_MAX cfg environment g)
  /\ unchanged c g (run SIZE_MAX ticks g)
  /\ (latch_of c g = true -> latch_of c (run SIZE_MAX ticks g) = true)
  /\ (forall cfg' environment',
        monitor_of c (evaluate_user_environment SIZE_MAX cfg' environment'
                        (run SIZE_MAX ticks g))
        = monitor_of c (evaluate_user_environment SIZE_MAX cfg' environment' g)).
Proof.
  intros Hoff Hticks.
  assert (Hstep : forall cfg0 e g0, enabled_of c cfg0 = false ->
            unchanged c g0 (evaluate_user_environment SIZE_MAX cfg0 e g0)).
  { intros cfg0 e g0 H0. unfold unchanged.
    rewrite evaluate_user_environment_monitor, H0. reflexivity. }
  assert (Hrun : unchanged c g (run SIZE_MAX ticks g)).
  { revert g. induction Hticks as [|[cfg0 e] ticks H0 _ IH]; intros g; cbn.
    - reflexivity.
    - unfold unchanged in *. rewrite IH. now apply Hstep. }
  split; [now apply Hstep|]. split; [exact Hrun|]. split.
  - intros L. apply monitor_of_eq in Hrun. destruct Hrun as (_ & _ & _ & E).
    congruence.
  - intros cfg' e'. rewrite !evaluate_user_environment_monitor.
    unfold unchanged in Hrun. now rewrite Hrun.
Qed.

(** C7. A second accessor call with no tick in between returns 0 in
    count mode and the latch in latch mode; the first call leaves the
    latch as it was. *)
Theorem accessor_twice (c : Channel) cfg1 cfg2 g :
  let g1 := snd (events_accessor SIZE_MAX c cfg1 g) in
  fst (events_accessor SIZE_MAX c cfg2 g1)
  = (if latch_mode_of c cfg2 then size_t_of_bool (latch_of c g) else 0)
  /\ latch_of c g1 = latch_of c g.
Proof.
  intros g1.
  destruct (events_accessor_result SIZE_MAX c cfg2 g1) as [R _].
  destruct (events_accessor_result SIZE_MAX c cfg1 g) as [_ L].
  destruct (events_accessor_frame SIZE_MAX c c cfg1 g) as (_ & E & La & _).
  fold g1 in L, E, La. rewrite R, L, E, La, to_size_t_diag. split; reflexivity.
Qed.

End Invariants.

Lemma latch_iff_outside_or_inside_witness :
  let g := evaluate_user_environment SIZE_MAX_32 config_high_enabled
             (mkEnvironment 46 50) initial_globals in
  reachable SIZE_MAX_32 g /\
  (latch_of TemperatureHigh g = true <->
   state_of TemperatureHigh g = OUTSIDE_LIMIT \/
   state_of TemperatureHigh g = INSIDE_LIMIT).
Proof.
  intros g.
  assert (Hg : reachable SIZE_MAX_32 g)
    by (apply reachable_tick, reachable_initial).
  split; [exact Hg|].
  exact (proj1 (latch_iff_outside_or_inside SIZE_MAX_32 TemperatureHigh g Hg)).
Defined.

Lemma disabled_monitor_frozen_witness :
  let g := evaluate_user_environment SIZE_MAX_32 config_high_enabled
             (mkEnvironment 46 50) initial_globals in
  let ticks := [(_environmentConfig, mkEnvironment 30 50);
                (_environmentConfig, mkEnvironment 20 50)] in
  (enabled_of TemperatureHigh _environmentConfig = false /\
   Forall (fun t => enabled_of TemperatureHigh (fst t) = false) ticks) /\
  state_of TemperatureHigh (run SIZE_MAX_32 ticks g) = OUTSIDE_LIMIT /\
  latch_of TemperatureHigh (run SIZE_MAX_32 ticks g) = true /\
  state_of TemperatureHigh
    (evaluate_user_environment SIZE_MAX_32 config_high_enabled
       (mkEnvironment 44 50) (run SIZE_MAX_32 ticks g)) = INSIDE_LIMIT.
Proof.
  intros g ticks.
  assert (Hoff : enabled_of TemperatureHigh _environmentConfig = false)
    by reflexivity.
  assert (Hticks : Forall (fun t => enabled_of TemperatureHigh (fst t) = false) ticks)
    by (repeat constructor).
  split; [split; assumption|].
  destruct (disabled_monitor_frozen SIZE_MAX_32 TemperatureHigh
              _environmentConfig (mkEnvironment 30 50) ticks g Hoff Hticks)
    as (_ & Hrun & Hlatch & Hresume).
  split; [|split].
  - exact (f_equal mon_state Hrun).
  - exact (Hlatch eq_refl).
  - exact (f_equal mon_state
             (Hresume config_high_enabled (mkEnvironment 44 50))).
Defined.

Section ConstantReading.

Variable SIZE_MAX : Z.

(** While an enabled High monitor is in OUTSIDE_LIMIT, readings at or
    above the threshold change nothing. *)
Lemma high_outside_held (c : Channel) cfg (v : double) environments g :
  direction_of c = High ->
  enabled_of c cfg = true ->
  dge v (threshold_of c cfg) = true ->
  state_of c g = OUTSIDE_LIMIT ->
  Forall (fun e => reading_of c e = v) environments ->
  let ticks := map (pair cfg) environments in
  unchanged c g (run SIZE_MAX ticks g)
  /\ counter_trace SIZE_MAX c ticks g
     = repeat (events_of c g) (length environments)
  /\ crossings SIZE_MAX c ticks g = 0.
Proof.
  intros Hdir Hen Hv Hs Hall. revert g Hs.
  induction Hall as [|e rest He _ IH]; intros g Hs; cbn -[to_size_t].
  - repeat split.
  - assert (U : unchanged c g (evaluate_user_environment SIZE_MAX cfg e g)).
    { unfold unchanged. rewrite evaluate_user_environment_monitor.
      rewrite Hdir, Hen, He. unfold ChannelMonitor_evaluate.
      change (mon_state (monitor_of c g)) with (state_of c g).
      rewrite Hs. cbn [inside_limit]. now rewrite (dge_not_dlt _ _ Hv). }
    pose proof (monitor_of_eq _ _ _ U) as (Us & Ue & _ & _).
    destruct (IH (evaluate_user_environment SIZE_MAX cfg e g)) as (IHu & IHt & IHc).
    { congruence. }
    unfold unchanged in *. rewrite IHu, IHt, IHc, Ue.
    unfold is_crossing. rewrite Hs. repeat split; auto.
Qed.

(** C8. An enabled High monitor in NORMAL that is fed one constant
    reading at or above its threshold counts one event, on the first
    evaluation: after every evaluation of the sequence the counter holds
    the once-incremented value and the state is OUTSIDE_LIMIT. *)
Theorem constant_reading_counts_once
    (c : Channel) cfg (v : double) environment environments g :
  direction_of c = High ->
  enabled_of c cfg = true ->
  state_of c g = NORMAL ->
  dge v (threshold_of c cfg) = true ->
  Forall (fun e => reading_of c e = v) (environment :: environments) ->
  let g1 := evaluate_user_environment SIZE_MAX cfg environment g in
  let ticks := map (pair cfg) (environment :: environments) in
  events_of c g1 = to_size_t SIZE_MAX (events_of c g + 1)
  /\ state_of c g1 = OUTSIDE_LIMIT
  /\ counter_trace SIZE_MAX c ticks g
     = repeat (to_size_t SIZE_MAX (events_of c g + 1))
         (length (environment :: environments))
  /\ events_of c (run SIZE_MAX ticks g) = to_size_t SIZE_MAX (events_of c g + 1)
  /\ state_of c (run SIZE_MAX ticks g) = OUTSIDE_LIMIT
  /\ crossings SIZE_MAX c ticks g = 1.
Proof.
  intros Hdir Hen Hs Hv Hall g1 ticks.
  inversion Hall as [|e rest He Hrest]; subst e rest.
  pose proof (evaluate_user_environment_monitor SIZE_MAX c cfg environment g) as R.
  fold g1 in R. rewrite Hdir, Hen, He in R. unfold ChannelMonitor_evaluate in R.
  change (mon_state (monitor_of c g)) with (state_of c g) in R.
  rewrite Hs in R. cbn [outside_limit] in R. rewrite Hv in R.
  apply monitor_fields in R. cbn -[to_size_t] in R. destruct R as (Rs & Re & _ & _).
  destruct (high_outside_held c cfg v environments g1 Hdir Hen Hv Rs Hrest)
    as (U & Tr & Cr).
  apply monitor_of_eq in U. destruct U as (Us & Ue & _ & _).
  subst ticks. cbn -[to_size_t]. fold g1.
  rewrite Tr, Cr, Us, Ue, Re, Rs. unfold is_crossing. fold g1. rewrite Hs, Rs.
  repeat split.
Qed.

End ConstantReading.

Lemma constant_reading_counts_once_witness :
  let environments := [mkEnvironment 46 10; mkEnvironment 46 20] in
  let ticks := map (pair config_high_enabled) (mkEnvironment 46 50 :: environments) in
  (direction_of TemperatureHigh = High /\
   enabled_of TemperatureHigh config_high_enabled = true /\
   state_of TemperatureHigh initial_globals = NORMAL /\
   dge 46 (threshold_of TemperatureHigh config_high_enabled) = true /\
   Forall (fun e => reading_of TemperatureHigh e = 46%float)
     (mkEnvironment 46 50 :: environments)) /\
  counter_trace SIZE_MAX_32 TemperatureHigh ticks initial_globals = [1; 1; 1] /\
  state_of TemperatureHigh (run SIZE_MAX_32 ticks initial_globals) = OUTSIDE_LIMIT.
Proof.
  intros environments ticks.
  assert (Hall : Forall (fun e => reading_of TemperatureHigh e = 46%float)
                   (mkEnvironment 46 50 :: environments))
    by (repeat constructor).
  split; [repeat split; try reflexivity; exact Hall|].
  destruct (constant_reading_counts_once SIZE_MAX_32 TemperatureHigh
              config_high_enabled 46 (mkEnvironment 46 50) environments
              initial_globals eq_refl eq_refl eq_refl eq_refl Hall)
    as (_ & _ & Tr & _ & St & _).
  exact (conj Tr St).
Defined.

Section Counter.

Variable SIZE_MAX : Z.

(** One full excursion of the temperature-high monitor (46, 44, 40 under
    the default threshold 45 and hysteresis 5) returns to the initial
    state with the counter incremented. *)
Lemma excursion_increments (k : Z) :
  run SIZE_MAX
    [(config_high_enabled, mkEnvironment 46 50);
     (config_high_enabled, mkEnvironment 44 50);
     (config_high_enabled, mkEnvironment 40 50)]
    (set_highEvents k initial_globals)
  = set_highEvents (to_size_t SIZE_MAX (k + 1)) initial_globals.
Proof. reflexivity. Qed.

(** Every counter value is reached. *)
Lemma counter_value_reachable (n : Z) :
  0 <= n ->
  reachable SIZE_MAX (set_highEvents (to_size_t SIZE_MAX n) initial_globals).
Proof.
  revert n. apply natlike_ind.
  - unfold to_size_t. rewrite Zmod_0_l. apply reachable_initial.
  - intros n Hn IH.
    replace (to_size_t SIZE_MAX (Z.succ n))
      with (to_size_t SIZE_MAX (to_size_t SIZE_MAX n + 1)).
    + rewrite <- excursion_increments. now apply run_reachable.
    + unfold to_size_t. now rewrite Zplus_mod_idemp_l.
Qed.

(** C9, as the code has it.  One evaluation adds to the counter, in
    [size_t] arithmetic, a delta that is 0 or 1 and is a function of the
    monitor's state, the reading and the configuration.  Below [SIZE_MAX]
    the counter therefore does not decrease and grows by at most one; at
    [SIZE_MAX] a counted crossing wraps it to 0. *)
Theorem counter_step_modular (c : Channel) cfg environment g :
  size_t_range SIZE_MAX (events_of c g) ->
  let g' := evaluate_user_environment SIZE_MAX cfg environment g in
  let delta := counter_delta (direction_of c) (enabled_of c cfg)
                 (threshold_of c cfg) (reading_of c environment) (state_of c g) in
  (delta = 0 \/ delta = 1)
  /\ events_of c g' = to_size_t SIZE_MAX (events_of c g + delta)
  /\ size_t_range SIZE_MAX (events_of c g')
  /\ (events_of c g < SIZE_MAX -> events_of c g' = events_of c g + delta)
  /\ (events_of c g = SIZE_MAX -> events_of c g' = if delta =? 1 then 0 else SIZE_MAX).
Proof.
  intros Hr g' delta.
  pose proof (evaluate_user_environment_monitor SIZE_MAX c cfg environment g) as R.
  fold g' in R. apply monitor_fields in R. destruct R as (_ & Re & _ & _).
  assert (Hd : delta = 0 \/ delta = 1).
  { subst delta. unfold counter_delta.
    destruct (state_of c g); try (left; reflexivity);
      destruct (enabled_of c cfg && outside_limit _ _ _); auto. }
  assert (He : events_of c g' = to_size_t SIZE_MAX (events_of c g + delta)).
  { rewrite Re. subst delta. unfold ChannelMonitor_evaluate, counter_delta.
    change (mon_state (monitor_of c g)) with (state_of c g).
    change (mon_events (monitor_of c g)) with (events_of c g).
    destruct (enabled_of c cfg), (state_of c g); cbn -[to_size_t];
      repeat match goal with
             | |- context [if ?b then _ else _] => destruct b; cbn -[to_size_t]
             end;
      rewrite ?Z.add_0_r; try reflexivity;
      symmetry; apply to_size_t_small; exact Hr. }
  unfold size_t_range in *.
  split; [exact Hd|]. split; [exact He|]. split; [|split].
  - rewrite He. apply to_size_t_range. lia.
  - intros Hlt. rewrite He. apply to_size_t_small. lia.
  - intros Hmax. rewrite He, Hmax. destruct Hd as [-> | ->]; cbn -[to_size_t].
    + rewrite Z.add_0_r. apply to_size_t_small. lia.
    + apply to_size_t_succ_max. lia.
Qed.

End Counter.

Lemma counter_step_modular_witness :
  size_t_range SIZE_MAX_32 (events_of TemperatureHigh initial_globals) /\
  events_of TemperatureHigh
    (evaluate_user_environment SIZE_MAX_32 config_high_enabled
       (mkEnvironment 46 50) initial_globals) = 1.
Proof.
  assert (Hr : size_t_range SIZE_MAX_32 (events_of TemperatureHigh initial_globals))
    by (unfold size_t_range; cbn; unfold SIZE_MAX_32; lia).
  split; [exact Hr|].
  exact (proj1 (proj2 (counter_step_modular SIZE_MAX_32 TemperatureHigh
                         config_high_enabled (mkEnvironment 46 50)
                         initial_globals Hr))).
Defined.

(** C9 as stated fails where [size_t] wraps: the state with the
    temperature-high counter at [SIZE_MAX] is reachable, and one more
    crossing takes the counter from [SIZE_MAX] down to 0. *)
Lemma counter_decreases_at_SIZE_MAX :
  let g' := evaluate_user_environment SIZE_MAX_32 config_high_enabled
              (mkEnvironment 46 50) globals_counter_at_max in
  reachable SIZE_MAX_32 globals_counter_at_max
  /\ events_of TemperatureHigh globals_counter_at_max = 4294967295
  /\ events_of TemperatureHigh g' = 0
  /\ events_of TemperatureHigh g' < events_of TemperatureHigh globals_counter_at_max.
Proof.
  split; [|repeat split].
  exact (counter_value_reachable SIZE_MAX_32 SIZE_MAX_32 ltac:(discriminate)).
Qed.

Section EndToEnd.

Variable SIZE_MAX : Z.

(** C5, as the code has it.  The counter takes the values 0, 1, 1, 1, 1;
    the reading 40 is [<= 45 - 5], so the fourth evaluation clears the
    latch and the accessor called at the end returns 0 in latch mode; in
    count mode it returns 1. *)
Theorem end_to_end_default_high (latch_mode : bool) (h0 h1 h2 h3 h4 : double) :
  1 <= SIZE_MAX ->
  let ticks := end_to_end_ticks latch_mode h0 h1 h2 h3 h4 in
  counter_trace SIZE_MAX TemperatureHigh ticks initial_globals = [0; 1; 1; 1; 1]
  /\ state_of TemperatureHigh (run SIZE_MAX ticks initial_globals) = NORMAL
  /\ fst (environment_high_temperature_events SIZE_MAX
            (end_to_end_config latch_mode) (run SIZE_MAX ticks initial_globals))
     = (if latch_mode then 0 else 1).
Proof.
  intros HM ticks. subst ticks.
  assert (E1 : to_size_t SIZE_MAX (0 + 1) = 1) by (apply to_size_t_small; lia).
  assert (E2 : to_size_t SIZE_MAX (1 - 0) = 1) by (apply to_size_t_small; lia).
  destruct latch_mode; cbv -[to_size_t Z.add Z.sub]; rewrite ?E1, ?E2;
    repeat split.
Qed.

End EndToEnd.

Lemma end_to_end_default_high_witness :
  1 <= SIZE_MAX_32 /\
  fst (environment_high_temperature_events SIZE_MAX_32 (end_to_end_config true)
         (run SIZE_MAX_32 (end_to_end_ticks true 50 50 50 50 50) initial_globals))
  = 0.
Proof.
  assert (HM : 1 <= SIZE_MAX_32) by discriminate.
  split; [exact HM|].
  exact (proj2 (proj2 (end_to_end_default_high SIZE_MAX_32 true 50 50 50 50 50 HM))).
Defined.

(** C5 as stated fails in latch mode: the accessor called after the five
    readings returns 0, not 1. *)
Lemma end_to_end_latch_report_is_not_1 :
  let g := run SIZE_MAX_32 (end_to_end_ticks true 50 50 50 50 50) initial_globals in
  counter_trace SIZE_MAX_32 TemperatureHigh
    (end_to_end_ticks true 50 50 50 50 50) initial_globals = [0; 1; 1; 1; 1]
  /\ highLatch g = false
  /\ fst (environment_high_temperature_events SIZE_MAX_32 (end_to_end_config true) g) = 0
  /\ fst (environment_high_temperature_events SIZE_MAX_32 (end_to_end_config true) g) <> 1.
Proof.
  repeat split. discriminate.
Qed.

Section InitialState.

Variable SIZE_MAX : Z.

(** C6, evaluated on the code.  The static initialisers put all four
    monitors in NORMAL, not in UNKNOWN, and no reachable state is
    UNKNOWN.  The pass-through itself is as claimed: an enabled
    evaluation from UNKNOWN is the evaluation from NORMAL on the same
    counter, snapshot and latch. *)
Theorem monitors_start_in_NORMAL (c : Channel) cfg environment g :
  state_of c initial_globals = NORMAL
  /\ state_of c initial_globals <> UNKNOWN
  /\ (reachable SIZE_MAX g -> state_of c g <> UNKNOWN)
  /\ (state_of c g = UNKNOWN -> enabled_of c cfg = true ->
      monitor_of c (evaluate_user_environment SIZE_MAX cfg environment g)
      = ChannelMonitor_evaluate SIZE_MAX (direction_of c) true
          (threshold_of c cfg) (hysteresis_of c cfg) (reading_of c environment)
          (mkMonitor NORMAL (events_of c g) (events_last_of c g) (latch_of c g))).
Proof.
  split; [destruct c; reflexivity|].
  split; [destruct c; discriminate|]. split.
  - intros Hg E. pose proof (reachable_invariant SIZE_MAX c g Hg) as Inv.
    unfold latch_follows_state in Inv. cbn in Inv. now rewrite E in Inv.
  - intros Hs Hen. rewrite evaluate_user_environment_monitor, Hen.
    unfold ChannelMonitor_evaluate.
    change (mon_state (monitor_of c g)) with (state_of c g).
    rewrite Hs. reflexivity.
Qed.

End InitialState.

Section Reporting.

Variable SIZE_MAX : Z.

(** C3.  An accessor returns the latch (as 0 or 1) in latch mode and
    otherwise the counter minus the snapshot, in [size_t] arithmetic (the
    plain difference when the snapshot does not exceed the counter); it
    stores the counter in the snapshot.  After a call, a run of ticks with
    two crossings makes the next call return 2 in count mode; in latch
    mode that call returns 1 as long as the monitor has not come back to
    NORMAL, and a later call made once the monitor is in NORMAL returns
    0. *)
Theorem accessor_reports_delta_or_latch
    (c : Channel) cfg0 cfg g ticks later :
  (fst (events_accessor SIZE_MAX c cfg g)
   = (if latch_mode_of c cfg then size_t_of_bool (latch_of c g)
      else to_size_t SIZE_MAX (events_of c g - events_last_of c g))
   /\ events_last_of c (snd (events_accessor SIZE_MAX c cfg g)) = events_of c g)
  /\ (latch_mode_of c cfg = false ->
      0 <= events_last_of c g <= events_of c g -> events_of c g <= SIZE_MAX ->
      fst (events_accessor SIZE_MAX c cfg g) = events_of c g - events_last_of c g)
  /\ (2 <= SIZE_MAX ->
      let g1 := snd (events_accessor SIZE_MAX c cfg0 g) in
      let g2 := run SIZE_MAX ticks g1 in
      let g3 := run SIZE_MAX later (snd (events_accessor SIZE_MAX c cfg g2)) in
      crossings SIZE_MAX c ticks g1 = 2 ->
      (latch_mode_of c cfg = false ->
       fst (events_accessor SIZE_MAX c cfg g2) = 2)
      /\ (latch_mode_of c cfg = true -> reachable SIZE_MAX g ->
          state_of c g2 <> NORMAL ->
          fst (events_accessor SIZE_MAX c cfg g2) = 1)
      /\ (latch_mode_of c cfg = true -> reachable SIZE_MAX g ->
          state_of c g3 = NORMAL ->
          fst (events_accessor SIZE_MAX c cfg g3) = 0)).
Proof.
  split; [apply events_accessor_result|]. split.
  { intros Hmode Hle HM.
    destruct (events_accessor_result SIZE_MAX c cfg g) as [R _].
    rewrite R, Hmode. apply to_size_t_small. lia. }
  intros HM g1 g2 g3 Hc.
  assert (Hreach : reachable SIZE_MAX g ->
                   reachable SIZE_MAX g2 /\ reachable SIZE_MAX g3).
  { intros Hg. assert (Hg2 : reachable SIZE_MAX g2)
      by (apply run_reachable; now constructor).
    split; [exact Hg2|]. apply run_reachable. now constructor. }
  destruct (events_accessor_result SIZE_MAX c cfg g2) as [R2 _].
  destruct (events_accessor_result SIZE_MAX c cfg g3) as [R3 _].
  split; [|split].
  - intros Hmode. rewrite R2, Hmode.
    destruct (run_events SIZE_MAX c ticks g1) as [Ev El]. fold g2 in Ev, El.
    rewrite Hc in Ev. rewrite El.
    destruct (events_accessor_result SIZE_MAX c cfg0 g) as [_ L].
    destruct (events_accessor_frame SIZE_MAX c c cfg0 g) as (_ & E & _).
    fold g1 in L, E. rewrite L, <- E.
    unfold to_size_t in *. rewrite <- Zminus_mod_idemp_l, Ev, Zminus_mod_idemp_l.
    replace (events_of c g1 + 2 - events_of c g1) with 2 by lia.
    apply Z.mod_small. lia.
  - intros Hmode Hg Hs. rewrite R2, Hmode.
    pose proof (reachable_invariant SIZE_MAX c g2 (proj1 (Hreach Hg))) as Inv.
    unfold latch_follows_state in Inv. cbn in Inv.
    destruct (state_of c g2); try contradiction; try congruence;
      now rewrite Inv.
  - intros Hmode Hg Hs. rewrite R3, Hmode.
    pose proof (reachable_invariant SIZE_MAX c g3 (proj2 (Hreach Hg))) as Inv.
    unfold latch_follows_state in Inv. cbn in Inv. rewrite Hs in Inv.
    now rewrite Inv.
Qed.

End Reporting.

Lemma accessor_reports_delta_or_latch_witness :
  let report (cfg : ConfigData) :=
    let g1 := snd (events_accessor SIZE_MAX_32 TemperatureHigh cfg initial_globals) in
    events_accessor SIZE_MAX_32 TemperatureHigh cfg
      (run SIZE_MAX_32 (two_crossings cfg) g1) in
  (reachable SIZE_MAX_32 initial_globals /\ 2 <= SIZE_MAX_32) /\
  fst (report (end_to_end_config false)) = 2 /\
  fst (report (end_to_end_config true)) = 1 /\
  fst (events_accessor SIZE_MAX_32 TemperatureHigh (end_to_end_config true)
         (run SIZE_MAX_32 (recovery (end_to_end_config true))
            (snd (report (end_to_end_config true))))) = 0.
Proof.
  intros report.
  assert (HM : 2 <= SIZE_MAX_32) by discriminate.
  assert (Hinit : reachable SIZE_MAX_32 initial_globals)
    by apply reachable_initial.
  split; [split; [exact Hinit | exact HM]|].
  pose proof (proj2 (proj2 (accessor_reports_delta_or_latch SIZE_MAX_32
                       TemperatureHigh
                       (end_to_end_config false) (end_to_end_config false)
                       initial_globals (two_crossings (end_to_end_config false))
                       (recovery (end_to_end_config false))))
                HM eq_refl) as (Hcount & _ & _).
  pose proof (proj2 (proj2 (accessor_reports_delta_or_latch SIZE_MAX_32
                       TemperatureHigh
                       (end_to_end_config true) (end_to_end_config true)
                       initial_globals (two_crossings (end_to_end_config true))
                       (recovery (end_to_end_config true))))
                HM eq_refl) as (_ & Hlatch & Hlater).
  split; [exact (Hcount eq_refl)|]. split.
  - apply (Hlatch eq_refl Hinit). discriminate.
  - exact (Hlater eq_refl Hinit eq_refl).
Defined.

(** * Further properties of the evaluator *)

Section Order.

Variable SIZE_MAX : Z.

(** The variables are those of the four monitors. *)
Lemma globals_ext (g g' : Globals) :
  (forall c, monitor_of c g = monitor_of c g') -> g = g'.
Proof.
  intros H.
  pose proof (H TemperatureHigh) as H1. pose proof (H TemperatureLow) as H2.
  pose proof (H HumidityHigh) as H3. pose proof (H HumidityLow) as H4.
  destruct g, g'. unfold monitor_of in *. cbn in *.
  injection H1 as -> -> -> ->. injection H2 as -> -> -> ->.
  injection H3 as -> -> -> ->. injection H4 as -> -> -> ->.
  reflexivity.
Qed.

Lemma channel_eq_dec (c c' : Channel) : {c = c'} + {c <> c'}.
Proof. decide equality. Qed.

(** The [if] statements of two channels commute. *)
Lemma evaluate_channel_commute (c1 c2 : Channel) cfg environment g :
  evaluate_channel SIZE_MAX c1 cfg environment
    (evaluate_channel SIZE_MAX c2 cfg environment g)
  = evaluate_channel SIZE_MAX c2 cfg environment
      (evaluate_channel SIZE_MAX c1 cfg environment g).
Proof.
  destruct (channel_eq_dec c1 c2) as [->|Hne]; [reflexivity|].
  apply globals_ext. intros c.
  destruct (channel_eq_dec c c1) as [->|H1].
  - rewrite evaluate_channel_own.
    rewrite !(evaluate_channel_other SIZE_MAX c1 c2) by exact Hne.
    now rewrite evaluate_channel_own.
  - rewrite (evaluate_channel_other SIZE_MAX c c1) by exact H1.
    destruct (channel_eq_dec c c2) as [->|H2].
    + rewrite !evaluate_channel_own.
      now rewrite (evaluate_channel_other SIZE_MAX c2 c1) by exact H1.
    + rewrite !(evaluate_channel_other SIZE_MAX c c2) by exact H2.
      now rewrite (evaluate_channel_other SIZE_MAX c c1) by exact H1.
Qed.

Lemma evaluate_in_order_permutation (l l' : list Channel) cfg environment g :
  Permutation l l' ->
  evaluate_in_order SIZE_MAX l cfg environment g
  = evaluate_in_order SIZE_MAX l' cfg environment g.
Proof.
  unfold evaluate_in_order.
  induction 1 as [|c l l' _ IH|c1 c2 l|l l' l'' _ IH1 _ IH2]; cbn.
  - reflexivity.
  - now rewrite IH.
  - apply evaluate_channel_commute.
  - now rewrite IH1.
Qed.

(** X1. The order of the four [if] statements is immaterial: evaluating
    the four monitors in any order gives the variables that
    [evaluate_user_environment] gives. *)
Theorem evaluation_order_immaterial (order : list Channel) cfg environment g :
  Permutation order all_channels ->
  evaluate_in_order SIZE_MAX order cfg environment g
  = evaluate_user_environment SIZE_MAX cfg environment g.
Proof.
  intros P.
  rewrite (evaluate_in_order_permutation order (rev all_channels)).
  - reflexivity.
  - rewrite P. apply Permutation_rev.
Qed.

End Order.

Lemma evaluation_order_immaterial_witness :
  Permutation all_channels all_channels /\
  evaluate_in_order SIZE_MAX_32 all_channels config_high_enabled
    (mkEnvironment 46 50) initial_globals
  = evaluate_user_environment SIZE_MAX_32 config_high_enabled
      (mkEnvironment 46 50) initial_globals.
Proof.
  split; [apply Permutation_refl|].
  exact (evaluation_order_immaterial SIZE_MAX_32 all_channels config_high_enabled
           (mkEnvironment 46 50) initial_globals (Permutation_refl _)).
Defined.

(** ** NaN readings *)

Lemma SFcompare_refl_not_nan (x : spec_float) :
  x <> S754_nan -> SFcompare x x = Some Eq.
Proof.
  destruct x as [s|s| |s m e]; cbn; intros H; try congruence.
  - now destruct s.
  - rewrite Z.compare_refl.
    change (PosDef.Pos.compare_cont Eq m m) with (Pos.compare m m).
    rewrite Pos.compare_refl. now destruct s.
Qed.

Lemma is_nan_Prim2SF (v : double) :
  PrimFloat.is_nan v = true -> Prim2SF v = S754_nan.
Proof.
  unfold PrimFloat.is_nan. rewrite eqb_spec. unfold SFeqb. intros H.
  destruct (Prim2SF v) eqn:E; try reflexivity;
    rewrite SFcompare_refl_not_nan in H by discriminate; discriminate.
Qed.

(** Every comparison with a NaN is false. *)
Lemma nan_comparisons (v x : double) :
  PrimFloat.is_nan v = true ->
  dge v x = false /\ dle v x = false /\ dlt v x = false /\ dgt v x = false.
Proof.
  intros H. apply is_nan_Prim2SF in H.
  unfold dge, dle, dlt, dgt. rewrite !leb_spec, !ltb_spec.
  unfold SFleb, SFltb. rewrite H.
  destruct (Prim2SF x); cbn; auto.
Qed.

Section StepShape.

Variable SIZE_MAX : Z.

(** X2. What an evaluation does to a monitor depends on nothing but that
    monitor's own variables, its own enable flag, threshold and
    hysteresis, and its own reading: two evaluations that agree on these
    leave the monitor with the same variables, whatever the other
    variables, configuration members and reading are. *)
Theorem monitor_noninterference (c : Channel) cfg1 cfg2 e1 e2 g1 g2 :
  monitor_of c g1 = monitor_of c g2 ->
  enabled_of c cfg1 = enabled_of c cfg2 ->
  threshold_of c cfg1 = threshold_of c cfg2 ->
  hysteresis_of c cfg1 = hysteresis_of c cfg2 ->
  reading_of c e1 = reading_of c e2 ->
  monitor_of c (evaluate_user_environment SIZE_MAX cfg1 e1 g1)
  = monitor_of c (evaluate_user_environment SIZE_MAX cfg2 e2 g2).
Proof.
  intros Hm He Ht Hh Hr. rewrite !evaluate_user_environment_monitor.
  now rewrite Hm, He, Ht, Hh, Hr.
Qed.

(** The cases of one step of a monitor. *)
Ltac step_cases c cfg g :=
  unfold ChannelMonitor_evaluate, is_crossing;
  change (mon_state (monitor_of c g)) with (state_of c g);
  change (mon_latch (monitor_of c g)) with (latch_of c g);
  change (mon_events (monitor_of c g)) with (events_of c g);
  change (mon_events_last (monitor_of c g)) with (events_last_of c g);
  destruct (enabled_of c cfg), (state_of c g) eqn:?; cbn -[to_size_t];
  repeat match goal with
         | |- context [outside_limit ?d ?v ?T] =>
             destruct (outside_limit d v T) eqn:?; cbn -[to_size_t]
         | |- context [inside_limit ?d ?v ?T] =>
             destruct (inside_limit d v T) eqn:?; cbn -[to_size_t]
         | |- context [hysteresis_cleared ?d ?v ?T ?H] =>
             destruct (hysteresis_cleared d v T H) eqn:?; cbn -[to_size_t]
         end.

(** X3. The state of a monitor moves along the edges of the machine
    only: NORMAL never goes to INSIDE_LIMIT and OUTSIDE_LIMIT never goes
    straight back to NORMAL.  The latch changes on two edges only: it is
    set by a crossing and cleared on the way from INSIDE_LIMIT to
    NORMAL; the counter changes on a crossing only. *)
Theorem transitions_follow_the_machine (c : Channel) cfg environment g :
  let g' := evaluate_user_environment SIZE_MAX cfg environment g in
  transition_allowed (state_of c g) (state_of c g') = true
  /\ (latch_of c g' <> latch_of c g ->
      (is_crossing c g g' = true /\ latch_of c g' = true)
      \/ (state_of c g = INSIDE_LIMIT /\ state_of c g' = NORMAL /\
          latch_of c g' = false))
  /\ (events_of c g' <> events_of c g -> is_crossing c g g' = true)
  /\ (is_crossing c g g' = true -> latch_of c g' = true).
Proof.
  intros g'.
  pose proof (evaluate_user_environment_monitor SIZE_MAX c cfg environment g) as R.
  fold g' in R. apply monitor_fields in R. destruct R as (Rs & Re & _ & Rl).
  unfold is_crossing. rewrite Rs, Re, Rl. clear.
  step_cases c cfg g; rewrite ?Heqe;
    repeat split; try reflexivity; try congruence; intros; try congruence; auto.
Qed.

(** X4. A NaN reading takes no branch: a monitor in NORMAL,
    OUTSIDE_LIMIT or INSIDE_LIMIT keeps its state, counter, snapshot and
    latch, enabled or not and whatever its threshold and hysteresis. *)
Theorem nan_reading_changes_nothing (c : Channel) cfg environment g :
  PrimFloat.is_nan (reading_of c environment) = true ->
  state_of c g <> UNKNOWN ->
  unchanged c g (evaluate_user_environment SIZE_MAX cfg environment g).
Proof.
  intros Hnan Hs. unfold unchanged.
  rewrite evaluate_user_environment_monitor.
  pose proof (fun x => nan_comparisons _ x Hnan) as N.
  unfold ChannelMonitor_evaluate, outside_limit, inside_limit, hysteresis_cleared.
  change (mon_state (monitor_of c g)) with (state_of c g).
  destruct (enabled_of c cfg); [|reflexivity].
  destruct (state_of c g) eqn:Es; [congruence| | |];
    destruct (direction_of c);
    repeat match goal with
           | |- context [dge ?a ?b] => rewrite (proj1 (N b))
           | |- context [dle ?a ?b] => rewrite (proj1 (proj2 (N b)))
           | |- context [dlt ?a ?b] => rewrite (proj1 (proj2 (proj2 (N b))))
           | |- context [dgt ?a ?b] => rewrite (proj2 (proj2 (proj2 (N b))))
           end;
    try reflexivity; unfold monitor_of; now rewrite Es.
Qed.

Lemma crossings_nonneg (c : Channel) ticks g :
  0 <= crossings SIZE_MAX c ticks g.
Proof.
  revert g. induction ticks as [|[cfg e] ticks IH]; intros g; cbn; [lia|].
  specialize (IH (evaluate_user_environment SIZE_MAX cfg e g)).
  destruct (is_crossing c g _); lia.
Qed.

(** One step without the hysteresis being cleared. *)
Lemma step_without_clear (c : Channel) cfg environment g :
  hysteresis_cleared (direction_of c) (reading_of c environment)
    (threshold_of c cfg) (hysteresis_of c cfg) = false ->
  let g' := evaluate_user_environment SIZE_MAX cfg environment g in
  ((state_of c g = OUTSIDE_LIMIT \/ state_of c g = INSIDE_LIMIT) ->
   (state_of c g' = OUTSIDE_LIMIT \/ state_of c g' = INSIDE_LIMIT)
   /\ is_crossing c g g' = false /\ latch_of c g' = latch_of c g)
  /\ (is_crossing c g g' = true -> state_of c g' = OUTSIDE_LIMIT).
Proof.
  intros Hc g'.
  pose proof (evaluate_user_environment_monitor SIZE_MAX c cfg environment g) as R.
  fold g' in R. apply monitor_fields in R. destruct R as (Rs & _ & _ & Rl).
  unfold is_crossing. rewrite Rs, Rl.
  unfold ChannelMonitor_evaluate. rewrite Hc. clear.
  change (mon_state (monitor_of c g)) with (state_of c g).
  change (mon_latch (monitor_of c g)) with (latch_of c g).
  destruct (enabled_of c cfg), (state_of c g) eqn:Es; cbn -[to_size_t];
    repeat match goal with
           | |- context [outside_limit ?d ?v ?T] =>
               destruct (outside_limit d v T); cbn -[to_size_t]
           | |- context [inside_limit ?d ?v ?T] =>
               destruct (inside_limit d v T); cbn -[to_size_t]
           end;
    rewrite ?Es; split; intros; intuition congruence.
Qed.

(** X5. Debouncing: over a run in which no reading clears the
    hysteresis of a monitor (no reading [<= T - H] for High, [>= T + H]
    for Low, under the configuration of its tick), the monitor counts at
    most one event; if it starts in OUTSIDE_LIMIT or INSIDE_LIMIT it
    counts none and its latch stays as it is. *)
Theorem no_clear_at_most_one_event (c : Channel) ticks g :
  Forall (fun t => hysteresis_cleared (direction_of c) (reading_of c (snd t))
                     (threshold_of c (fst t)) (hysteresis_of c (fst t)) = false)
         ticks ->
  0 <= crossings SIZE_MAX c ticks g <= 1
  /\ ((state_of c g = OUTSIDE_LIMIT \/ state_of c g = INSIDE_LIMIT) ->
      crossings SIZE_MAX c ticks g = 0
      /\ latch_of c (run SIZE_MAX ticks g) = latch_of c g).
Proof.
  intros Hall. revert g.
  induction Hall as [|[cfg e] ticks Hc _ IH]; intros g; cbn.
  - split; [lia|]. intros _. split; reflexivity.
  - cbn in Hc.
    destruct (step_without_clear c cfg e g Hc) as [Hout Hcross].
    destruct (IH (evaluate_user_environment SIZE_MAX cfg e g)) as [IHb IHo].
    split.
    + destruct (is_crossing c g _) eqn:Ec; [|lia].
      destruct (IHo (or_introl (Hcross eq_refl))) as [-> _]. lia.
    + intros Hs. destruct (Hout Hs) as (Hs' & -> & Hl).
      destruct (IHo Hs') as [-> Hl']. split; [reflexivity|congruence].
Qed.

(** One step brings the next crossing at most one tick nearer. *)
Lemma step_ticks_to_crossing (c : Channel) cfg environment g :
  let g' := evaluate_user_environment SIZE_MAX cfg environment g in
  3 * (if is_crossing c g g' then 1 else 0) + ticks_to_crossing (state_of c g)
  <= 1 + ticks_to_crossing (state_of c g').
Proof.
  intros g'.
  pose proof (evaluate_user_environment_monitor SIZE_MAX c cfg environment g) as R.
  fold g' in R. apply monitor_fields in R. destruct R as (Rs & _).
  unfold is_crossing. rewrite Rs. clear.
  step_cases c cfg g; rewrite ?Heqe; cbn; lia.
Qed.

(** X6. A monitor counts at most one event every three ticks, whatever
    the readings and the configuration changes: from NORMAL the crossings
    of a run of [n] ticks number at most [(n + 2) / 3], from INSIDE_LIMIT
    at most [(n + 1) / 3] and from OUTSIDE_LIMIT at most [n / 3]. *)
Theorem one_event_per_three_ticks (c : Channel) ticks g :
  3 * crossings SIZE_MAX c ticks g + ticks_to_crossing (state_of c g)
  <= Z.of_nat (length ticks) + 3.
Proof.
  revert g. induction ticks as [|[cfg e] ticks IH]; intros g.
  - cbn. destruct (state_of c g); cbn; lia.
  - cbn [crossings length].
    pose proof (step_ticks_to_crossing c cfg e g) as S.
    specialize (IH (evaluate_user_environment SIZE_MAX cfg e g)).
    cbn zeta in S. destruct (is_crossing c g _); lia.
Qed.

Lemma run_actions_crossed_nonneg (c : Channel) actions g :
  0 <= snd (fst (run_actions SIZE_MAX c actions g)).
Proof.
  revert g. induction actions as [|[cfg e|cfg] actions IH]; intros g; cbn.
  - lia.
  - specialize (IH (evaluate_user_environment SIZE_MAX cfg e g)).
    destruct (run_actions SIZE_MAX c actions _) as [[r k] g']. cbn in *.
    destruct (is_crossing c g _); lia.
  - destruct (events_accessor SIZE_MAX c cfg g) as [r0 g0].
    specialize (IH g0).
    destruct (run_actions SIZE_MAX c actions g0) as [[r k] g']. exact IH.
Qed.

(** X7. In count mode no event is lost and none is reported twice: over
    any interleaving of ticks and accessor calls during which the counter
    does not wrap, the values reported plus the events still pending at
    the end (counter minus snapshot) equal the events pending at the
    start plus the crossings of the run. *)
Theorem reports_account_for_every_crossing (c : Channel) actions g :
  Forall (fun a => match a with
                   | Report cfg => latch_mode_of c cfg = false
                   | Tick _ _ => True
                   end) actions ->
  0 <= events_last_of c g <= events_of c g ->
  let result := run_actions SIZE_MAX c actions g in
  let reported := fst (fst result) in
  let crossed := snd (fst result) in
  let g' := snd result in
  events_of c g + crossed <= SIZE_MAX ->
  reported + (events_of c g' - events_last_of c g')
  = (events_of c g - events_last_of c g) + crossed
  /\ 0 <= events_last_of c g' <= events_of c g'.
Proof.
  intros Hall. revert g.
  induction Hall as [|[cfg e|cfg] actions Hmode _ IH]; intros g Hr; cbn zeta.
  - cbn. intros _. lia.
  - cbn [run_actions].
    pose proof (run_actions_crossed_nonneg c actions
                  (evaluate_user_environment SIZE_MAX cfg e g)) as Hk.
    specialize (IH (evaluate_user_environment SIZE_MAX cfg e g)).
    destruct (evaluate_events SIZE_MAX c cfg e g) as [He Hl].
    destruct (run_actions SIZE_MAX c actions _) as [[r k] g']. cbn in *.
    intros Hb.
    destruct (is_crossing c g _).
    + rewrite to_size_t_small in He by lia.
      rewrite He, Hl in IH. specialize (IH ltac:(lia) ltac:(lia)). lia.
    + rewrite He, Hl in IH. specialize (IH ltac:(lia) ltac:(lia)). lia.
  - cbn [run_actions].
    destruct (events_accessor_result SIZE_MAX c cfg g) as [R L].
    destruct (events_accessor_frame SIZE_MAX c c cfg g) as (_ & E & _).
    destruct (events_accessor SIZE_MAX c cfg g) as [r0 g0]. cbn in R, L, E.
    pose proof (run_actions_crossed_nonneg c actions g0) as Hk.
    specialize (IH g0).
    destruct (run_actions SIZE_MAX c actions g0) as [[r k] g']. cbn in *.
    intros Hb. rewrite Hmode in R.
    rewrite to_size_t_small in R by lia.
    rewrite L, E in IH. specialize (IH ltac:(lia) ltac:(lia)). lia.
Qed.

End StepShape.

Lemma monitor_noninterference_witness :
  let cfg2 := set_lowEnable true config_high_enabled in
  let g2 := set_lowEvents 7 initial_globals in
  (monitor_of TemperatureHigh initial_globals = monitor_of TemperatureHigh g2 /\
   enabled_of TemperatureHigh config_high_enabled = enabled_of TemperatureHigh cfg2 /\
   threshold_of TemperatureHigh config_high_enabled = threshold_of TemperatureHigh cfg2 /\
   hysteresis_of TemperatureHigh config_high_enabled = hysteresis_of TemperatureHigh cfg2 /\
   reading_of TemperatureHigh (mkEnvironment 46 10)
   = reading_of TemperatureHigh (mkEnvironment 46 99)) /\
  monitor_of TemperatureHigh
    (evaluate_user_environment SIZE_MAX_32 config_high_enabled
       (mkEnvironment 46 10) initial_globals)
  = monitor_of TemperatureHigh
      (evaluate_user_environment SIZE_MAX_32 cfg2 (mkEnvironment 46 99) g2).
Proof.
  intros cfg2 g2. split; [repeat split|].
  exact (monitor_noninterference SIZE_MAX_32 TemperatureHigh
           config_high_enabled cfg2 (mkEnvironment 46 10) (mkEnvironment 46 99)
           initial_globals g2 eq_refl eq_refl eq_refl eq_refl eq_refl).
Defined.

Lemma nan_reading_changes_nothing_witness :
  let g := evaluate_user_environment SIZE_MAX_32 config_high_enabled
             (mkEnvironment 46 50) initial_globals in
  (PrimFloat.is_nan (reading_of TemperatureHigh (mkEnvironment nan 50)) = true /\
   state_of TemperatureHigh g <> UNKNOWN) /\
  unchanged TemperatureHigh g
    (evaluate_user_environment SIZE_MAX_32 config_high_enabled
       (mkEnvironment nan 50) g).
Proof.
  intros g.
  assert (Hs : state_of TemperatureHigh g <> UNKNOWN) by discriminate.
  split; [split; [reflexivity | exact Hs]|].
  exact (nan_reading_changes_nothing SIZE_MAX_32 TemperatureHigh
           config_high_enabled (mkEnvironment nan 50) g eq_refl Hs).
Defined.

Lemma no_clear_at_most_one_event_witness :
  let ticks := map (pair config_high_enabled)
                 [mkEnvironment 46 50; mkEnvironment 44 50; mkEnvironment 46 50;
                  mkEnvironment 41 50; mkEnvironment 46 50] in
  Forall (fun t => hysteresis_cleared (direction_of TemperatureHigh)
                     (reading_of TemperatureHigh (snd t))
                     (threshold_of TemperatureHigh (fst t))
                     (hysteresis_of TemperatureHigh (fst t)) = false) ticks /\
  0 <= crossings SIZE_MAX_32 TemperatureHigh ticks initial_globals <= 1.
Proof.
  intros ticks.
  assert (Hall : Forall (fun t => hysteresis_cleared (direction_of TemperatureHigh)
                     (reading_of TemperatureHigh (snd t))
                     (threshold_of TemperatureHigh (fst t))
                     (hysteresis_of TemperatureHigh (fst t)) = false) ticks)
    by (repeat constructor).
  split; [exact Hall|].
  exact (proj1 (no_clear_at_most_one_event SIZE_MAX_32 TemperatureHigh ticks
                  initial_globals Hall)).
Defined.

Lemma reports_account_for_every_crossing_witness :
  let cfg := end_to_end_config false in
  let actions := [Tick cfg (mkEnvironment 46 50); Tick cfg (mkEnvironment 44 50);
                  Report cfg; Tick cfg (mkEnvironment 40 50);
                  Tick cfg (mkEnvironment 46 50); Report cfg] in
  let result := run_actions SIZE_MAX_32 TemperatureHigh actions initial_globals in
  (Forall (fun a => match a with
                    | Report cfg => latch_mode_of TemperatureHigh cfg = false
                    | Tick _ _ => True
                    end) actions /\
   0 <= events_last_of TemperatureHigh initial_globals
     <= events_of TemperatureHigh initial_globals /\
   events_of TemperatureHigh initial_globals + snd (fst result) <= SIZE_MAX_32) /\
  fst (fst result)
  + (events_of TemperatureHigh (snd result) - events_last_of TemperatureHigh (snd result))
  = 2.
Proof.
  intros cfg actions result.
  assert (Hall : Forall (fun a => match a with
                    | Report cfg => latch_mode_of TemperatureHigh cfg = false
                    | Tick _ _ => True
                    end) actions) by (repeat constructor).
  assert (Hr : 0 <= events_last_of TemperatureHigh initial_globals
               <= events_of TemperatureHigh initial_globals) by (cbn; lia).
  assert (Hb : events_of TemperatureHigh initial_globals + snd (fst result)
               <= SIZE_MAX_32) by (vm_compute; discriminate).
  split; [repeat split; try assumption; apply Hr|].
  exact (proj1 (reports_account_for_every_crossing SIZE_MAX_32 TemperatureHigh
                  actions initial_globals Hall Hr Hb)).
Defined.

(** * Properties of main.cpp *)

Section EnvState.

Variable SIZE_MAX : Z.

(** [envState] publishes the trigger of a channel exactly when the
    accessor of that channel, called on the variables [envState] starts
    from, returns a non-zero value. *)
Lemma envState_published (c : Channel) cfg g :
  published c (fst (envState SIZE_MAX cfg g))
  = negb (fst (events_accessor SIZE_MAX c cfg g) =? 0).
Proof.
  destruct g. unfold envState, published.
  destruct c; cbn -[to_size_t Z.eqb];
    repeat match goal with
           | |- context [if ?b =? 0 then _ else _] =>
               destruct (b =? 0); cbn -[to_size_t Z.eqb]
           end;
    reflexivity.
Qed.

Lemma envState_globals cfg g :
  snd (envState SIZE_MAX cfg g)
  = snd (events_accessor SIZE_MAX HumidityLow cfg
      (snd (events_accessor SIZE_MAX HumidityHigh cfg
         (snd (events_accessor SIZE_MAX TemperatureLow cfg
            (snd (events_accessor SIZE_MAX TemperatureHigh cfg g))))))).
Proof. reflexivity. Qed.

(** X8. [envState] publishes, in the order temperature high, temperature
    low, humidity high, humidity low, the trigger of every channel whose
    accessor returns a non-zero value, always with [Trigger::NORMAL]; it
    stores every counter in its snapshot and leaves every state, counter
    and latch as it was. *)
Theorem envState_publishes_and_syncs cfg g :
  fst (envState SIZE_MAX cfg g)
  = flat_map (fun c => if fst (events_accessor SIZE_MAX c cfg g) =? 0 then []
                       else [(Trigger.NORMAL, trigger_name c)]) all_channels
  /\ forall c,
       state_of c (snd (envState SIZE_MAX cfg g)) = state_of c g /\
       events_of c (snd (envState SIZE_MAX cfg g)) = events_of c g /\
       latch_of c (snd (envState SIZE_MAX cfg g)) = latch_of c g /\
       events_last_of c (snd (envState SIZE_MAX cfg g)) = events_of c g.
Proof.
  destruct g. split.
  - unfold envState. cbn -[to_size_t Z.eqb].
    repeat match goal with
           | |- context [if ?b =? 0 then _ else _] =>
               destruct (b =? 0); cbn -[to_size_t Z.eqb]
           end;
      reflexivity.
  - intros c. destruct c; cbn; repeat split.
Qed.

(** X9. A second [envState] with no tick in between publishes nothing
    for a channel in count mode, and publishes again the trigger of every
    channel in latch mode whose latch is set. *)
Theorem envState_twice cfg1 cfg2 g :
  fst (envState SIZE_MAX cfg2 (snd (envState SIZE_MAX cfg1 g)))
  = flat_map (fun c => if latch_mode_of c cfg2 && latch_of c g
                       then [(Trigger.NORMAL, trigger_name c)] else [])
      all_channels.
Proof.
  destruct g. unfold envState. cbn -[to_size_t Z.eqb].
  rewrite ?to_size_t_diag.
  destruct (highLatch_cfg cfg2), (lowLatch_cfg cfg2), (humhighLatch_cfg cfg2),
    (humlowLatch_cfg cfg2), highLatch0, lowLatch0, humhighLatch0, humlowLatch0;
    reflexivity.
Qed.

End EnvState.

Section Loop.

Variable SIZE_MAX : Z.

Lemma envState_frame (c : Channel) cfg g :
  state_of c (snd (envState SIZE_MAX cfg g)) = state_of c g /\
  events_of c (snd (envState SIZE_MAX cfg g)) = events_of c g /\
  latch_of c (snd (envState SIZE_MAX cfg g)) = latch_of c g /\
  events_last_of c (snd (envState SIZE_MAX cfg g)) = events_of c g.
Proof. destruct g, c; cbn; repeat split. Qed.

Lemma envState_reachable cfg g :
  reachable SIZE_MAX g -> reachable SIZE_MAX (snd (envState SIZE_MAX cfg g)).
Proof.
  intros Hg. rewrite envState_globals. now repeat apply reachable_accessor.
Qed.

Lemma powerState_not_published (c : Channel) ps old :
  published c (snd (fst (powerState ps old))) = false.
Proof. unfold powerState. destruct (negb _); reflexivity. Qed.

Lemma loop_globals cfg environment ps s :
  app_globals (snd (loop SIZE_MAX cfg environment ps s))
  = snd (envState SIZE_MAX cfg
           (evaluate_user_environment SIZE_MAX cfg environment (app_globals s))).
Proof.
  unfold loop, environment_tick. cbv beta iota zeta.
  destruct (envState SIZE_MAX cfg _) as [pubs g].
  destruct (powerState ps _) as [[r pubs'] old]. reflexivity.
Qed.

Lemma loop_published (c : Channel) cfg environment ps s :
  published c (fst (loop SIZE_MAX cfg environment ps s))
  = negb (fst (events_accessor SIZE_MAX c cfg
                 (evaluate_user_environment SIZE_MAX cfg environment
                    (app_globals s))) =? 0).
Proof.
  rewrite <- envState_published.
  pose proof (powerState_not_published c ps (app_oldPowerState s)) as P.
  unfold loop, environment_tick. cbv beta iota zeta.
  destruct (envState SIZE_MAX cfg _) as [pubs g].
  destruct (powerState ps _) as [[r pubs'] old]. cbn [fst snd] in *.
  unfold published in *. rewrite existsb_app.
  match goal with
  | |- (_ || ?b)%bool = _ => replace b with false by (symmetry; exact P)
  end.
  apply orb_false_r.
Qed.

(** After any number of iterations from start-up the variables are
    reachable and every snapshot equals its counter. *)
Lemma loops_invariant inputs s :
  reachable SIZE_MAX (app_globals s) ->
  (forall c, events_last_of c (app_globals s) = events_of c (app_globals s)) ->
  reachable SIZE_MAX (app_globals (snd (loops SIZE_MAX inputs s)))
  /\ forall c, events_last_of c (app_globals (snd (loops SIZE_MAX inputs s)))
               = events_of c (app_globals (snd (loops SIZE_MAX inputs s))).
Proof.
  revert s. induction inputs as [|[[cfg e] ps] inputs IH]; intros s Hr Hs.
  - split; assumption.
  - cbn [loops].
    pose proof (loop_globals cfg e ps s) as G.
    destruct (loop SIZE_MAX cfg e ps s) as [pubs s1]. cbn [snd] in G.
    specialize (IH s1).
    destruct (loops SIZE_MAX inputs s1) as [trace s2]. cbn [snd] in *.
    apply IH; rewrite G.
    + apply envState_reachable. now constructor.
    + intros c. destruct (envState_frame c cfg
        (evaluate_user_environment SIZE_MAX cfg e (app_globals s)))
        as (_ & E & _ & L). congruence.
Qed.

(** X10. From start-up on, an iteration of [loop] in which a channel is
    in count mode publishes the trigger of that channel exactly when the
    tick of that iteration is a crossing of the channel: every counted
    event is published once, in the iteration that counts it. *)
Theorem loop_count_mode_publishes_crossings
    (c : Channel) inputs cfg environment ps :
  1 <= SIZE_MAX ->
  latch_mode_of c cfg = false ->
  let s := snd (loops SIZE_MAX inputs initial_app) in
  published c (fst (loop SIZE_MAX cfg environment ps s))
  = is_crossing c (app_globals s)
      (evaluate_user_environment SIZE_MAX cfg environment (app_globals s)).
Proof.
  intros HM Hmode s.
  destruct (loops_invariant inputs initial_app) as [_ Hsync].
  { apply reachable_initial. }
  { intros c'. destruct c'; reflexivity. }
  fold s in Hsync. rewrite loop_published.
  destruct (events_accessor_result SIZE_MAX c cfg
              (evaluate_user_environment SIZE_MAX cfg environment (app_globals s)))
    as [R _].
  destruct (evaluate_events SIZE_MAX c cfg environment (app_globals s)) as [He Hl].
  rewrite R, Hmode, Hl, He, Hsync. clear R He Hl.
  destruct (is_crossing c _ _).
  - unfold to_size_t. rewrite Zminus_mod_idemp_l.
    replace (events_of c (app_globals s) + 1 - events_of c (app_globals s))
      with 1 by lia.
    rewrite Z.mod_small by lia. reflexivity.
  - now rewrite to_size_t_diag.
Qed.

(** X11. From start-up on, an iteration of [loop] in which a channel is
    in latch mode publishes the trigger of that channel exactly when the
    monitor is not in NORMAL after the tick: the trigger is repeated on
    every iteration until the reading has cleared the hysteresis. *)
Theorem loop_latch_mode_publishes_while_latched
    (c : Channel) inputs cfg environment ps :
  latch_mode_of c cfg = true ->
  let s := snd (loops SIZE_MAX inputs initial_app) in
  let g' := evaluate_user_environment SIZE_MAX cfg environment (app_globals s) in
  published c (fst (loop SIZE_MAX cfg environment ps s)) = latch_of c g'
  /\ latch_of c g' = match state_of c g' with NORMAL => false | _ => true end.
Proof.
  intros Hmode s g'.
  destruct (loops_invariant inputs initial_app) as [Hr _].
  { apply reachable_initial. }
  { intros c'. destruct c'; reflexivity. }
  fold s in Hr.
  assert (Hg' : reachable SIZE_MAX g') by now constructor.
  pose proof (reachable_invariant SIZE_MAX c g' Hg') as Inv.
  unfold latch_follows_state in Inv. cbn in Inv.
  rewrite loop_published. fold g'.
  destruct (events_accessor_result SIZE_MAX c cfg g') as [R _].
  rewrite R, Hmode. split.
  - now destruct (latch_of c g').
  - destruct (state_of c g'); [contradiction|assumption..].
Qed.

End Loop.

Lemma loop_count_mode_publishes_crossings_witness :
  let cfg := end_to_end_config false in
  let inputs := [(cfg, mkEnvironment 30 50, POWER_SOURCE_VIN)] in
  (1 <= SIZE_MAX_32 /\ latch_mode_of TemperatureHigh cfg = false) /\
  published TemperatureHigh
    (fst (loop SIZE_MAX_32 cfg (mkEnvironment 46 50) POWER_SOURCE_BATTERY
            (snd (loops SIZE_MAX_32 inputs initial_app)))) = true.
Proof.
  intros cfg inputs.
  assert (HM : 1 <= SIZE_MAX_32) by discriminate.
  split; [split; [exact HM | reflexivity]|].
  exact (loop_count_mode_publishes_crossings SIZE_MAX_32 TemperatureHigh inputs
           cfg (mkEnvironment 46 50) POWER_SOURCE_BATTERY HM eq_refl).
Defined.

Lemma loop_latch_mode_publishes_while_latched_witness :
  let cfg := end_to_end_config true in
  let inputs := [(cfg, mkEnvironment 46 50, POWER_SOURCE_VIN)] in
  latch_mode_of TemperatureHigh cfg = true /\
  published TemperatureHigh
    (fst (loop SIZE_MAX_32 cfg (mkEnvironment 44 50) POWER_SOURCE_VIN
            (snd (loops SIZE_MAX_32 inputs initial_app)))) = true.
Proof.
  intros cfg inputs. split; [reflexivity|].
  exact (proj1 (loop_latch_mode_publishes_while_latched SIZE_MAX_32
                  TemperatureHigh inputs cfg (mkEnvironment 44 50)
                  POWER_SOURCE_VIN eq_refl)).
Defined.

Lemma last_cons_default {A : Type} (a d : A) (l : list A) :
  last (a :: l) d = last l a.
Proof.
  revert a d. induction l as [|b l IH]; intros a d; [reflexivity|].
  change (last (a :: b :: l) d) with (last (b :: l) d).
  now rewrite !(IH b).
Qed.

(** X12. Over successive calls of [powerState], whatever the power
    sources read, the publishes alternate between "pwr_l" and "pwr_r",
    all with [Trigger::IMMEDIATE], and the first one after start-up, where
    the static holds [true], is "pwr_l"; the static ends on the reading of
    the last source, and the value a call returns is the reading of its
    own source, whatever came before. *)
Theorem powerStates_alternate (sources : list power_source_t) (old : bool) :
  alternating old (fst (powerStates sources old))
  /\ snd (powerStates sources old) = last (map newPowerState sources) old
  /\ forall ps,
       fst (fst (powerState ps (snd (powerStates sources old)))) = newPowerState ps.
Proof.
  assert (Hret : forall ps b, fst (fst (powerState ps b)) = newPowerState ps).
  { intros ps b. unfold powerState.
    destruct b, (newPowerState ps); reflexivity. }
  split; [|split; [|intros ps; apply Hret]].
  - revert old. induction sources as [|ps rest IH]; intros old; cbn; [exact I|].
    specialize (IH (newPowerState ps)).
    unfold powerState.
    destruct old, (newPowerState ps) eqn:E; cbn;
      destruct (powerStates rest _) as [more st]; cbn in *; auto.
  - revert old. induction sources as [|ps rest IH]; intros old; [reflexivity|].
    cbn [powerStates map].
    specialize (IH (newPowerState ps)).
    assert (Hst : snd (powerState ps old) = newPowerState ps).
    { unfold powerState. destruct old, (newPowerState ps); reflexivity. }
    destruct (powerState ps old) as [[r pubs] st]. cbn in Hst. subst st.
    destruct (powerStates rest (newPowerState ps)) as [more st'].
    cbn [snd] in *. now rewrite last_cons_default.
Qed.

(** X13. [powerState] publishes once per change and never otherwise: the
    number of publishes over successive calls is the number of calls whose
    reading differs from the one held, so a steady power source publishes
    nothing. *)
Theorem powerStates_publish_changes (sources : list power_source_t) (old : bool) :
  length (fst (powerStates sources old)) = power_changes sources old
  /\ (Forall (fun ps => newPowerState ps = old) sources ->
      fst (powerStates sources old) = []).
Proof.
  split.
  - revert old. induction sources as [|ps rest IH]; intros old; [reflexivity|].
    cbn [powerStates power_changes].
    specialize (IH (newPowerState ps)).
    unfold powerState.
    destruct old, (newPowerState ps); cbn;
      destruct (powerStates rest _) as [more st]; cbn in *; now rewrite IH.
  - intros Hall. revert Hall.
    induction sources as [|ps rest IH]; intros Hall; [reflexivity|].
    inversion Hall as [|x l Hps Hrest]; subst x l.
    cbn [powerStates]. unfold powerState. rewrite Hps.
    rewrite Bool.eqb_reflx. cbn.
    specialize (IH Hrest).
    destruct (powerStates rest old) as [more st]. exact IH.
Qed.
